(** * DALL-E mini inference pipeline (tools/inference/inference_pipeline.ipynb)

    A shallow embedding of the notebook's driver code: prompt preparation,
    device sharding, the generate / strip / decode / clip / reshape loop,
    CLIP scoring and the ranked presentation.

    The three pretrained models, the tokenizers, the random number generator
    and numpy's argsort are external to the notebook.  They are the fields of
    the record [Externals]; what the driver relies on about them is the
    record [Contract].  The module [Example] gives a small instance that
    meets the contract and on which the pipeline can be run.

    Arrays that are only cut along their leading axis are lists of rows;
    the decoded images, which are clipped and reshaped, are row-major
    buffers with a shape.  Pixel values and logits are finite floating point
    numbers, represented by the rationals they denote; NaN is outside the
    model.  A Python exception is the result [None]. *)

From Stdlib Require Import String Bool Arith ZArith QArith Qminmax Lia Lqa List.
From Stdlib Require Import Permutation Sorted Qround.
Import ListNotations.

Local Open Scope nat_scope.

(** * Part I: the embedding *)

(** ** Leading-axis reshapes (flax.training.common_utils.shard) *)

Module Distributor.

(** [chunks k n l]: the [n] consecutive blocks of [k] rows of [l], which is
    how a row-major reshape of the leading axis [(n*k, ...)] into
    [(n, k, ...)] groups the rows. *)
Fixpoint chunks {A : Type} (k n : nat) (l : list A) : list (list A) :=
  match n with
  | O => []
  | S n' => firstn k l :: chunks k n' (skipn k l)
  end.

(** [shard], applied to one array whose rows are [xs]:
    [x.reshape((device_count, -1) + x.shape[1:])].  The reshape raises when
    the leading dimension is not a multiple of the device count. *)
Definition shard {A : Type} (device_count : nat) (xs : list A)
  : option (list (list A)) :=
  if device_count =? 0 then None
  else if length xs mod device_count =? 0
       then Some (chunks (length xs / device_count) device_count xs)
       else None.

(** The reassembly the notebook uses on results: [reshape((-1,) + shape[2:])]
    (decoded images, line 436) and [flatten] (logits, line 468) both merge
    the device axis back into the batch axis, in row-major order. *)
Definition unshard {A : Type} (xss : list (list A)) : list A := concat xss.

End Distributor.

(** ** Row-major arrays of pixel values *)

Module NDArray.

Record ndarray : Type := mk_ndarray { shape : list nat; data : list Q }.

Definition size_of (s : list nat) : nat := fold_right Nat.mul 1 s.

(** An array is well formed when its buffer holds exactly the elements its
    shape announces. *)
Definition wf (a : ndarray) : Prop := length (data a) = size_of (shape a).

(** [ndarray.clip(lo, hi)] is [minimum(maximum(x, lo), hi)] element by
    element. *)
Definition clip_scalar (lo hi x : Q) : Q := Qmin (Qmax x lo) hi.

Definition clip (lo hi : Q) (a : ndarray) : ndarray :=
  {| shape := shape a; data := map (clip_scalar lo hi) (data a) |}.

(** [a.reshape((-1,) + tail)]: the leading dimension is inferred from the
    number of elements; the call raises when that number is not a multiple of
    the product of [tail] (or when that product is zero). *)
Definition reshape_infer (tail : list nat) (a : ndarray) : option ndarray :=
  let m := size_of tail in
  if m =? 0 then None
  else if length (data a) mod m =? 0
       then Some {| shape := (length (data a) / m) :: tail; data := data a |}
       else None.

(** Iterating over an array yields its slices along the leading axis
    (iterating a 0-d array raises). *)
Definition rows (a : ndarray) : option (list ndarray) :=
  match shape a with
  | [] => None
  | n :: s => Some (map (mk_ndarray s) (Distributor.chunks (size_of s) n (data a)))
  end.

Definition shape_eqb (s t : list nat) : bool :=
  if list_eq_dec Nat.eq_dec s t then true else false.

(** The per-device results of a [pmap]ped function are stacked along a new
    leading (device) axis; they must agree on their shape. *)
Definition stack (xs : list ndarray) : option ndarray :=
  match xs with
  | [] => None
  | x :: _ =>
      if forallb (fun y => shape_eqb (shape y) (shape x)) xs
      then Some {| shape := length xs :: shape x; data := concat (map data xs) |}
      else None
  end.

(** [np.asarray(x, dtype=np.uint8)] on a float: truncation toward zero,
    kept in 8 bits. *)
Definition to_uint8 (x : Q) : Z := (Z.quot (Qnum x) (Zpos (Qden x))) mod 256.

End NDArray.

(** A PIL image built by [Image.fromarray] from an 8-bit array. *)
Record Image : Type := mk_image { im_shape : list nat; im_bytes : list Z }.

(** ** Tokenizers *)

(** A pretrained tokenizer: its vocabulary-driven encoder (without special
    tokens) and its reserved ids.  For the dalle-mini tokenizer the notebook
    documents BOS = 0, EOS = 2, padding = 1. *)
Record Tokenizer : Type := mk_tokenizer {
  encode : string -> list Z;
  bos_token_id : Z;
  eos_token_id : Z;
  pad_token_id : Z
}.

(** The [.data] of a tokenizer call: token ids and attention mask, one row
    per input string. *)
Record BatchEncoding : Type := mk_encoding {
  input_ids : list (list Z);
  attention_mask : list (list Z)
}.

(** One string under [padding="max_length", truncation=True,
    max_length=max_length]: the encoding is cut so that it fits together with
    the two special tokens, then padded on the right up to [max_length]; the
    mask marks the real tokens. *)
Definition encode_row (t : Tokenizer) (max_length : nat) (text : string)
  : list Z * list Z :=
  let ids := firstn (max_length - 2) (encode t text) in
  let full := bos_token_id t :: ids ++ [eos_token_id t] in
  (full ++ repeat (pad_token_id t) (max_length - length full),
   repeat 1%Z (length full) ++ repeat 0%Z (max_length - length full)).

Definition tokenizer_call (t : Tokenizer) (max_length : nat) (texts : list string)
  : BatchEncoding :=
  let rws := map (encode_row t max_length) texts in
  {| input_ids := map fst rws; attention_mask := map snd rws |}.

(** ** External collaborators *)

(** Everything the notebook loads or imports and then calls as a black box.
    Model parameters are fixed once loaded and are folded into the functions. *)
Record Externals : Type := mk_externals {
  (** jax.random keys, [jax.random.PRNGKey(seed)] and
      [jax.random.split(key, num)] *)
  Key : Type;
  PRNGKey : Z -> Key;
  random_split : Key -> nat -> list Key;
  (** [jax.device_count()]; the notebook runs on one host, where it is also
      [jax.local_device_count()] *)
  device_count : nat;
  (** [model.config.normalize_text] and [TextNormalizer()] *)
  normalize_text : bool;
  text_normalizer : string -> string;
  (** the dalle-mini tokenizer *)
  tokenizer : Tokenizer;
  (** [model.generate] on the unpacked token dictionary, with
      [do_sample=True, num_beams=1, prng_key, params, top_k, top_p], and the
      [.sequences] of its result: one row of image tokens per input row *)
  model_generate : BatchEncoding -> Key -> option Z -> option Q -> list (list Z);
  (** [vqgan.decode_code(indices, params)] *)
  vqgan_decode_code : list (list Z) -> NDArray.ndarray;
  (** the CLIP processor: its tokenizer and its image feature extractor,
      which may reject a batch *)
  clip_tokenizer : Tokenizer;
  clip_preprocess : Image -> NDArray.ndarray;
  clip_image_features : list Image -> option (list NDArray.ndarray);
  (** CLIP's similarity logit of one image against one tokenized text;
      [logits_per_image] is the matrix of these, images by texts *)
  clip_similarity : list Z -> list Z -> NDArray.ndarray -> Q;
  (** [ndarray.argsort()] *)
  argsort : list Q -> list nat
}.

Notation "x <- e ;; k" := (match e with Some x => k | None => None end)
  (at level 61, e at next level, right associativity).

(** ** The pipeline *)

Module Pipeline.
Import Distributor NDArray.

(** [jax.pmap]: the function runs once per slice of the leading axis, one
    slice per device; more slices than devices is an error. *)
Definition pmap {A B : Type} (n_devices : nat) (f : A -> B) (xs : list A)
  : option (list B) :=
  if length xs <=? n_devices then Some (map f xs) else None.

(** Several mapped arguments must agree on the size of the mapped axis. *)
Definition zip_mapped {A B : Type} (xs : list A) (ys : list B)
  : option (list (A * B)) :=
  if length xs =? length ys then Some (combine xs ys) else None.

(** [shard] on the token dictionary: every leaf is resharded. *)
Definition shard_encoding (W : nat) (e : BatchEncoding)
  : option (list (list (list Z)) * list (list (list Z))) :=
  ids <- shard W (input_ids e) ;;
  mask <- shard W (attention_mask e) ;;
  Some (ids, mask).

Section WithExternals.
Variable E : Externals.

(** cell 18 *)
Definition processed_prompt (prompt : string) : string :=
  if normalize_text E then text_normalizer E prompt else prompt.

(** cell 20: [[processed_prompt] * jax.device_count()], tokenized with
    [padding="max_length", truncation=True, max_length=128] *)
Definition repeated_prompts (prompt : string) : list string :=
  repeat (processed_prompt prompt) (device_count E).

Definition tokenized_prompt (prompt : string) : BatchEncoding :=
  tokenizer_call (tokenizer E) 128 (repeated_prompts prompt).

(** [flax.training.common_utils.shard_prng_key]:
    [jax.random.split(key, num=jax.local_device_count())] *)
Definition shard_prng_key (k : Key E) : list (Key E) :=
  random_split E k (device_count E).

(** cell 10, [p_generate] *)
Definition p_generate (tok : list (list (list Z)) * list (list (list Z)))
    (keys : list (Key E)) (top_k : option Z) (top_p : option Q)
  : option (list (list (list Z))) :=
  encs <- zip_mapped (fst tok) (snd tok) ;;
  args <- zip_mapped encs keys ;;
  pmap (device_count E)
       (fun a => model_generate E (mk_encoding (fst (fst a)) (snd (fst a)))
                                (snd a) top_k top_p)
       args.

(** [encoded_images.sequences[..., 1:]] *)
Definition remove_bos (sequences : list (list (list Z))) : list (list (list Z)) :=
  map (map (skipn 1)) sequences.

(** cell 10, [p_decode] *)
Definition p_decode (indices : list (list (list Z))) : option ndarray :=
  outs <- pmap (device_count E) (vqgan_decode_code E) indices ;;
  stack outs.

(** [decoded_images.clip(0.0, 1.0).reshape((-1, 256, 256, 3))] *)
Definition postprocess (decoded : ndarray) : option ndarray :=
  reshape_infer [256; 256; 3] (clip 0 1 decoded).

(** [Image.fromarray(np.asarray(img * 255, dtype=np.uint8))] *)
Definition to_image (img : ndarray) : Image :=
  mk_image (shape img) (map (fun x => to_uint8 (x * 255)) (data img)).

(** What one pass through the loop body did. *)
Record Iteration : Type := mk_iteration {
  it_subkey : Key E;
  it_worker_keys : list (Key E);
  it_sequences : list (list (list Z));
  it_decoder_input : list (list (list Z));
  it_images : list Image
}.

(** The variables the loop updates, with the log of its iterations. *)
Record State : Type := mk_state {
  key : Key E;
  images : list Image;
  log : list Iteration
}.

(** cell 26, the loop body *)
Definition generate_step (tok : list (list (list Z)) * list (list (list Z)))
    (gen_top_k : option Z) (gen_top_p : option Q) (st : State) : option State :=
  match random_split E (key st) 2 with
  | [key'; subkey] =>
      let keys := shard_prng_key subkey in
      sequences <- p_generate tok keys gen_top_k gen_top_p ;;
      let encoded_images := remove_bos sequences in
      decoded <- p_decode encoded_images ;;
      decoded_images <- postprocess decoded ;;
      imgs <- rows decoded_images ;;
      let new := map to_image imgs in
      Some {| key := key';
              images := images st ++ new;
              log := log st ++ [mk_iteration subkey keys sequences
                                             encoded_images new] |}
  | _ => None
  end.

(** cell 26, [for i in trange(n)] *)
Fixpoint generate_loop (n : nat)
    (tok : list (list (list Z)) * list (list (list Z)))
    (gen_top_k : option Z) (gen_top_p : option Q) (st : State) : option State :=
  match n with
  | O => Some st
  | S n' =>
      st' <- generate_step tok gen_top_k gen_top_p st ;;
      generate_loop n' tok gen_top_k gen_top_p st'
  end.

(** cells 12 to 26: from the seed and the prompt to the list of images;
    the loop runs [n_predictions // jax.device_count()] times. *)
Definition generation (seed : Z) (prompt : string) (n_predictions : nat)
    (gen_top_k : option Z) (gen_top_p : option Q) : option State :=
  tok <- shard_encoding (device_count E) (tokenized_prompt prompt) ;;
  generate_loop (n_predictions / (device_count E)) tok gen_top_k gen_top_p
                (mk_state (PRNGKey E seed) [] []).

(** cell 28: the CLIP processor on [[prompt] * jax.device_count()] and the
    images, with [padding="max_length", max_length=77, truncation=True] *)
Record ClipInputs : Type := mk_clip_inputs {
  ci_input_ids : list (list Z);
  ci_attention_mask : list (list Z);
  ci_pixel_values : list ndarray
}.

Definition processor (prompt : string) (imgs : list Image) : option ClipInputs :=
  let txt := tokenizer_call (clip_tokenizer E) 77
                            (repeat prompt (device_count E)) in
  px <- clip_image_features E imgs ;;
  Some (mk_clip_inputs (input_ids txt) (attention_mask txt) px).

(** [clip(params, input_ids, attention_mask, pixel_values).logits_per_image]:
    one row per image, one column per text. *)
Definition logits_per_image (ids mask : list (list Z)) (pixels : list ndarray)
  : list (list Q) :=
  map (fun px => map (fun t => clip_similarity E (fst t) (snd t) px)
                     (combine ids mask)) pixels.

(** cell 10, [p_clip] on the sharded inputs *)
Definition p_clip (ids mask : list (list (list Z))) (pixels : list (list ndarray))
  : option (list (list (list Q))) :=
  txt <- zip_mapped ids mask ;;
  args <- zip_mapped txt pixels ;;
  pmap (device_count E)
       (fun a => logits_per_image (fst (fst a)) (snd (fst a)) (snd a))
       args.

(** [logits.squeeze().flatten()]: dropping the axes of size one and then
    flattening reads the buffer in row-major order. *)
Definition squeeze_flatten (l : list (list (list Q))) : list Q :=
  concat (map (@concat Q) l).

Definition scoring (prompt : string) (imgs : list Image) : option (list Q) :=
  ci <- processor prompt imgs ;;
  ids <- shard (device_count E) (ci_input_ids ci) ;;
  mask <- shard (device_count E) (ci_attention_mask ci) ;;
  px <- shard (device_count E) (ci_pixel_values ci) ;;
  logits <- p_clip ids mask px ;;
  Some (squeeze_flatten logits).

(** cell 30: [logits.argsort()[::-1]] *)
Definition ranked (logits : list Q) : list nat := rev (argsort E logits).

(** cell 30, the loop: [images[idx]] and [logits[idx]] for each index of the
    order, an index out of range raising *)
Fixpoint present (imgs : list Image) (logits : list Q) (order : list nat)
  : option (list (Image * Q)) :=
  match order with
  | [] => Some []
  | idx :: order' =>
      img <- nth_error imgs idx ;;
      score <- nth_error logits idx ;;
      shown <- present imgs logits order' ;;
      Some ((img, score) :: shown)
  end.

Record Output : Type := mk_output {
  out_state : State;
  out_logits : list Q;
  out_presented : list (Image * Q)
}.

(** The notebook from the seed to the ranked display. *)
Definition run (seed : Z) (prompt : string) (n_predictions : nat)
    (gen_top_k : option Z) (gen_top_p : option Q) : option Output :=
  st <- generation seed prompt n_predictions gen_top_k gen_top_p ;;
  logits <- scoring prompt (images st) ;;
  shown <- present (images st) logits (ranked logits) ;;
  Some (mk_output st logits shown).
End WithExternals.

Arguments mk_iteration {E}.
Arguments mk_state {E}.
Arguments mk_output {E}.
Arguments it_subkey {E}.
Arguments it_worker_keys {E}.
Arguments it_sequences {E}.
Arguments it_decoder_input {E}.
Arguments it_images {E}.
Arguments key {E}.
Arguments images {E}.
Arguments log {E}.
Arguments out_state {E}.
Arguments out_logits {E}.
Arguments out_presented {E}.

(** A per-device batch of [n] token sequences of [len] tokens each. *)
Definition batch_of (n len : nat) (d : list (list Z)) : Prop :=
  length d = n /\ Forall (fun s => length s = len) d.

(** The sharded prompt as the loop expects it: one slice per device, each
    holding one row. *)
Definition one_row_per_device (E : Externals)
    (tok : list (list (list Z)) * list (list (list Z))) : Prop :=
  length (fst tok) = device_count E /\
  length (snd tok) = device_count E /\
  Forall (fun d => length d = 1) (fst tok).

(** The sub-seeds [n] successive [key, subkey = jax.random.split(key)] draw
    from a key. *)
Fixpoint subkey_sequence (E : Externals) (k : Key E) (n : nat) : list (Key E) :=
  match n with
  | O => []
  | S n' =>
      match random_split E k 2 with
      | [k'; subkey] => subkey :: subkey_sequence E k' n'
      | _ => []
      end
  end.

(** An image of the fixed resolution. *)
Definition image_256 (im : Image) : Prop :=
  im_shape im = [256; 256; 3] /\ length (im_bytes im) = 256 * 256 * 3.

(** What every pass through the loop body is expected to leave in the log:
    one key per worker, split from the sub-seed; one image-token sequence per
    worker (the start token and 256 image tokens); the decoder fed with the
    sequences minus their first token; one image of the fixed resolution per
    worker. *)
Definition iteration_ok (E : Externals) (it : Iteration E) : Prop :=
  it_worker_keys it = random_split E (it_subkey it) (device_count E) /\
  length (it_worker_keys it) = device_count E /\
  length (it_sequences it) = device_count E /\
  Forall (batch_of 1 257) (it_sequences it) /\
  it_decoder_input it = remove_bos (it_sequences it) /\
  length (it_images it) = device_count E /\
  Forall image_256 (it_images it).

(** Lines 433 to 438 for the single sequence batch of one worker: strip the
    first token, decode, clip, view as one 256 x 256 x 3 array, convert to
    an 8-bit image. *)
Definition render (E : Externals) (seqs : list (list Z)) : Image :=
  to_image (mk_ndarray [256; 256; 3]
              (map (clip_scalar 0 1)
                   (data (vqgan_decode_code E (map (skipn 1) seqs))))).

(** The same externals with another text front end for generation: the
    normalization switch, the normalizer and the dalle-mini tokenizer. *)
Definition with_text_frontend (E : Externals) (b : bool)
    (f : string -> string) (t : Tokenizer) : Externals :=
  mk_externals (Key E) (PRNGKey E) (random_split E) (device_count E) b f t
               (model_generate E) (vqgan_decode_code E) (clip_tokenizer E)
               (clip_preprocess E) (clip_image_features E) (clip_similarity E)
               (argsort E).

(** What [ndarray.argsort] promises, whatever the sort kind: the indices of
    the array, arranged so that the values do not decrease. *)
Definition argsort_contract (srt : list Q -> list nat) : Prop :=
  forall l : list Q,
    Permutation (srt l) (seq 0 (length l)) /\
    StronglySorted (fun i j => (nth i l 0 <= nth j l 0)%Q) (srt l).

(** The contracts of the external collaborators the driver relies on. *)
Record Contract (E : Externals) : Prop := mk_contract {
  c_devices : 0 < device_count E;
  c_split : forall (k : Key E) n, length (random_split E k n) = n;
  (** one sequence per input row: the start token, then the 256 tokens of a
      16 x 16 image code *)
  c_generate : forall enc k tk tp,
      batch_of (length (input_ids enc)) 257 (model_generate E enc k tk tp);
  (** a 16 x 16 code decodes to 256 x 256 pixels of 3 channels *)
  c_decode_shape : forall idx,
      Forall (fun s => length s = 256) idx ->
      shape (vqgan_decode_code E idx) = [length idx; 256; 256; 3];
  c_decode_wf : forall idx, wf (vqgan_decode_code E idx);
  c_features : forall imgs, imgs <> [] ->
      clip_image_features E imgs = Some (map (clip_preprocess E) imgs);
  c_features_inv : forall imgs px,
      clip_image_features E imgs = Some px -> px = map (clip_preprocess E) imgs;
  c_argsort : argsort_contract (argsort E)
}.

Arguments c_devices {E}.
Arguments c_split {E}.
Arguments c_generate {E}.
Arguments c_decode_shape {E}.
Arguments c_decode_wf {E}.
Arguments c_features {E}.
Arguments c_features_inv {E}.
Arguments c_argsort {E}.

End Pipeline.

(** ** A small executable instance of the externals

    A character-level tokenizer, a tree-shaped splittable generator, a
    sampler that is greedy under [top_k = 1], a codec that paints each image
    in one shade, and a similarity that reads the first pixel.  It is used to
    run the pipeline on concrete inputs. *)

Module Example.
Import Distributor NDArray Pipeline.

Definition char_tokenizer (bos eos pad : Z) : Tokenizer :=
  mk_tokenizer
    (fun s => map (fun c => Z.of_N (Ascii.N_of_ascii c)) (list_ascii_of_string s))
    bos eos pad.

(** A text normalizer that folds ASCII capitals to lower case. *)
Definition lowercase (s : string) : string :=
  string_of_list_ascii
    (map (fun c =>
            let n := Ascii.nat_of_ascii c in
            if (65 <=? n) && (n <=? 90) then Ascii.ascii_of_nat (n + 32) else c)
         (list_ascii_of_string s)).

Definition tree_split (k : list Z) (n : nat) : list (list Z) :=
  map (fun i => Z.of_nat i :: k) (seq 0 n).

Definition sample (enc : BatchEncoding) (k : list Z) (top_k : option Z)
    (top_p : option Q) : list (list Z) :=
  map (fun row =>
         16384%Z :: firstn 256 (match top_k with
                                | Some 1%Z => []
                                | _ => k
                                end ++ skipn 1 row ++ repeat 0%Z 256))
      (input_ids enc).

Definition shade (s : list Z) : Q :=
  Qmake (fold_right Z.add 0%Z s mod 7 - 1) 4.

Definition paint (idx : list (list Z)) : ndarray :=
  mk_ndarray [length idx; 256; 256; 3]
             (concat (map (fun s => repeat (shade s) (256 * 256 * 3)) idx)).

Definition first_pixel (img : Image) : ndarray :=
  mk_ndarray [1] [inject_Z (hd 0%Z (im_bytes img))].

Definition features (imgs : list Image) : option (list ndarray) :=
  match imgs with
  | [] => None
  | _ => Some (map first_pixel imgs)
  end.

Definition similarity (ids mask : list Z) (px : ndarray) : Q :=
  hd 0%Q (data px)
  + inject_Z (fold_right Z.add 0%Z ids mod 100)
  + inject_Z (fold_right Z.add 0%Z mask).

Fixpoint insert_index (l : list Q) (i : nat) (sorted : list nat) : list nat :=
  match sorted with
  | [] => [i]
  | j :: rest =>
      if Qle_bool (nth i l 0%Q) (nth j l 0%Q) then i :: sorted
      else j :: insert_index l i rest
  end.

Definition insertion_argsort (l : list Q) : list nat :=
  fold_right (insert_index l) [] (seq 0 (length l)).

Definition externals (n_devices : nat) : Externals :=
  mk_externals (list Z) (fun seed => [seed]) tree_split n_devices
               false (fun s => s) (char_tokenizer 0 2 1)
               sample paint (char_tokenizer 49406 49407 49407)
               first_pixel features similarity insertion_argsort.

End Example.

(** * Part II: properties *)

(** Inverts a successful chain of option binds, one bind at a time. *)
Ltac bind_inv H :=
  match type of H with
  | match ?e with Some _ => _ | None => None end = Some _ =>
      let x := fresh "x" in
      let Hx := fresh "Hx" in
      destruct e as [x|] eqn:Hx; [|discriminate H]
  end.

(** ** The device distributor *)

Module DistributorFacts.
Import Distributor.

Section Chunks.
Context {A : Type}.
Implicit Types (l xs : list A) (k n W i : nat).

Lemma chunks_length k n l : length (chunks k n l) = n.
Proof. revert l; induction n as [|n IH]; intros l; simpl; auto. Qed.

Lemma chunks_concat k n l :
  length l = n * k -> concat (chunks k n l) = l.
Proof.
  revert l; induction n as [|n IH]; intros l Hl; simpl in *.
  - destruct l; [reflexivity | discriminate].
  - rewrite IH.
    + apply firstn_skipn.
    + rewrite length_skipn. lia.
Qed.

Lemma chunks_nth k n l i :
  i < n -> nth i (chunks k n l) [] = firstn k (skipn (i * k) l).
Proof.
  revert l i; induction n as [|n IH]; intros l i Hi; [lia|].
  destruct i as [|i]; simpl.
  - reflexivity.
  - rewrite IH by lia. rewrite skipn_skipn.
    replace (i * k + k) with (k + i * k) by lia. reflexivity.
Qed.

Lemma chunks_Forall_length k n l :
  length l = n * k -> Forall (fun c => length c = k) (chunks k n l).
Proof.
  revert l; induction n as [|n IH]; intros l Hl; simpl; constructor.
  - rewrite length_firstn. lia.
  - apply IH. rewrite length_skipn. lia.
Qed.

Lemma chunks_singletons n l :
  length l = n -> chunks 1 n l = map (fun x => [x]) l.
Proof.
  revert l; induction n as [|n IH]; intros [|x l] Hl; simpl in *;
    try discriminate; try reflexivity.
  f_equal. apply IH. lia.
Qed.

Lemma shard_multiple W k xs :
  0 < W -> length xs = W * k -> shard W xs = Some (chunks k W xs).
Proof.
  intros HW Hl. unfold shard.
  destruct (Nat.eqb_spec W 0) as [->|_]; [lia|].
  rewrite Hl, (Nat.mul_comm W k), Nat.Div0.mod_mul, Nat.div_mul by lia.
  reflexivity.
Qed.

Lemma shard_inv W xs sh :
  shard W xs = Some sh ->
  0 < W /\ length xs = W * (length xs / W) /\
  sh = chunks (length xs / W) W xs.
Proof.
  unfold shard.
  destruct (Nat.eqb_spec W 0) as [->|HW]; [discriminate|].
  destruct (Nat.eqb_spec (length xs mod W) 0) as [Hm|Hm]; [|discriminate].
  intros [= <-]. repeat split; try lia.
  pose proof (Nat.div_mod_eq (length xs) W). lia.
Qed.

Lemma shard_not_multiple W xs :
  length xs mod W <> 0 -> shard W xs = None.
Proof.
  intros Hm. unfold shard.
  destruct (W =? 0); [reflexivity|].
  destruct (Nat.eqb_spec (length xs mod W) 0); [contradiction | reflexivity].
Qed.

Lemma nth_error_singletons l i x :
  nth_error l i = Some x -> nth_error (map (fun y => [y]) l) i = Some [x].
Proof. intros H. rewrite nth_error_map, H. reflexivity. Qed.
End Chunks.

(** C5: for an array whose leading dimension is the worker count (and more
    generally [k] rows per worker), [shard] succeeds, [unshard] after [shard]
    gives the array back, there is one shard per worker, and shard [i] is the
    [i]-th block of rows in the original order; with one row per worker,
    shard [i] is row [i]. *)
Theorem shard_unshard_round_trip {A : Type} (W k : nat) (X : list A) :
  0 < W -> length X = W * k ->
  exists sh,
    shard W X = Some sh /\
    unshard sh = X /\
    length sh = W /\
    (forall i, i < W -> nth i sh [] = firstn k (skipn (i * k) X)) /\
    (k = 1 -> forall i x, nth_error X i = Some x -> nth_error sh i = Some [x]).
Proof.
  intros HW Hl. exists (chunks k W X).
  split; [now apply shard_multiple|].
  split; [apply chunks_concat; lia|].
  split; [apply chunks_length|].
  split; [intros i Hi; now apply chunks_nth|].
  intros -> i x Hx. rewrite chunks_singletons by lia.
  now apply nth_error_singletons.
Qed.

(** Four rows on four workers. *)
Lemma shard_unshard_round_trip_witness :
  exists sh,
    shard 4 [10; 20; 30; 40] = Some sh /\
    unshard sh = [10; 20; 30; 40] /\
    length sh = 4 /\
    (forall i, i < 4 -> nth i sh [] = firstn 1 (skipn (i * 1) [10; 20; 30; 40])) /\
    (1 = 1 -> forall i x, nth_error [10; 20; 30; 40] i = Some x ->
              nth_error sh i = Some [x]).
Proof.
  apply (@shard_unshard_round_trip nat 4 1 [10; 20; 30; 40]).
  - lia.
  - reflexivity.
Defined.

End DistributorFacts.

(** ** Clipping and reshaping of decoded images *)

Module NDArrayFacts.
Import Distributor DistributorFacts NDArray Pipeline.

Lemma clip_scalar_cases (lo hi x : Q) :
  (lo <= hi)%Q ->
  ((x < lo)%Q /\ clip_scalar lo hi x = lo) \/
  ((hi < x)%Q /\ clip_scalar lo hi x = hi) \/
  ((lo <= x <= hi)%Q /\ clip_scalar lo hi x = x).
Proof.
  intros Hlh. unfold clip_scalar, Qmax, Qmin, GenericMinMax.gmax, GenericMinMax.gmin.
  destruct (Qcompare_spec x lo) as [Hx|Hx|Hx].
  - destruct (Qcompare_spec x hi) as [Hy|Hy|Hy].
    + right; right. split; [|reflexivity].
      split; [rewrite Hx; apply Qle_refl | rewrite Hy; apply Qle_refl].
    + right; right. split; [|reflexivity].
      split; [rewrite Hx; apply Qle_refl | now apply Qlt_le_weak].
    + right; left. now split.
  - left. split; [assumption|].
    destruct (Qcompare_spec lo hi) as [Hy|Hy|Hy]; try reflexivity.
    exfalso. apply (Qlt_irrefl lo). eapply Qle_lt_trans; eassumption.
  - destruct (Qcompare_spec x hi) as [Hy|Hy|Hy].
    + right; right. split; [|reflexivity].
      split; [now apply Qlt_le_weak | rewrite Hy; apply Qle_refl].
    + right; right. split; [|reflexivity].
      split; now apply Qlt_le_weak.
    + right; left. now split.
Qed.

Lemma clip_scalar_unit (x : Q) :
  (0 <= clip_scalar 0 1 x <= 1)%Q /\
  ((x < 0)%Q -> clip_scalar 0 1 x = 0%Q) /\
  ((1 < x)%Q -> clip_scalar 0 1 x = 1%Q) /\
  ((0 <= x <= 1)%Q -> clip_scalar 0 1 x = x).
Proof.
  assert (H01 : (0 <= 1)%Q) by discriminate.
  destruct (clip_scalar_cases 0 1 x H01) as [[H E]|[[H E]|[H E]]];
    rewrite E; repeat split; intros; try reflexivity; exfalso + idtac; lra.
Qed.

Lemma size_of_image : size_of [256; 256; 3] = 256 * 256 * 3.
Proof. unfold size_of, fold_right. lia. Qed.

(** Iterating a well-formed array of shape [n :: s] gives [n] well-formed
    arrays of shape [s]. *)
Lemma rows_spec (a : ndarray) (n : nat) (s : list nat) :
  shape a = n :: s -> length (data a) = n * size_of s ->
  exists rs, rows a = Some rs /\ length rs = n /\
             Forall (fun r => shape r = s /\ wf r) rs /\
             concat (map data rs) = data a.
Proof.
  intros Hs Hl. unfold rows. rewrite Hs. eexists. split; [reflexivity|].
  split; [now rewrite length_map, chunks_length|].
  split.
  - apply Forall_map. pose proof (chunks_Forall_length _ _ _ Hl) as HF.
    eapply Forall_impl; [|exact HF]. intros c Hc. split; [reflexivity|exact Hc].
  - rewrite map_map. simpl. rewrite map_id. now apply chunks_concat.
Qed.

Lemma postprocess_spec (raw : ndarray) (n : nat) :
  length (data raw) = n * (256 * 256 * 3) ->
  Pipeline.postprocess raw =
    Some (mk_ndarray [n; 256; 256; 3] (map (clip_scalar 0 1) (data raw))).
Proof.
  intros Hl. unfold Pipeline.postprocess, reshape_infer.
  rewrite size_of_image. cbn [clip data shape]. rewrite length_map, Hl.
  destruct (Nat.eqb_spec (256 * 256 * 3) 0) as [H0|_]; [lia|].
  rewrite Nat.Div0.mod_mul, Nat.eqb_refl, Nat.div_mul by lia.
  reflexivity.
Qed.

Lemma postprocess_inv (raw out : ndarray) :
  Pipeline.postprocess raw = Some out ->
  out = mk_ndarray [length (data raw) / (256 * 256 * 3); 256; 256; 3]
                   (map (clip_scalar 0 1) (data raw)) /\
  length (data raw) = length (data raw) / (256 * 256 * 3) * (256 * 256 * 3).
Proof.
  unfold Pipeline.postprocess, reshape_infer.
  rewrite size_of_image. cbn [clip data shape]. rewrite length_map.
  destruct (Nat.eqb_spec (256 * 256 * 3) 0) as [H0|_]; [lia|].
  destruct (Nat.eqb_spec (length (data raw) mod (256 * 256 * 3)) 0)
    as [Hm|Hm]; [|intros H; exfalso; congruence].
  intros H.
  apply (f_equal (fun o => match o with Some x => x | None => out end)) in H.
  cbv beta iota in H. subst out. split; [reflexivity|].
  pose proof (Nat.div_mod_eq (length (data raw)) (256 * 256 * 3)). lia.
Qed.

(** C3: whatever the raw codec output holds, every value of the clipped
    array lies in [0,1], values below 0 having become 0, values above 1
    having become 1 and the others being unchanged.  When the output holds
    [n] images of 256 x 256 x 3 values, the reshape succeeds, its result has
    shape [n; 256; 256; 3] and holds the clipped values, and iterating it
    yields [n] arrays of shape [256; 256; 3]; for any other size the reshape
    raises, so that whenever the stage returns its result has that shape and
    these values. *)
Theorem decoding_output_clipped_and_reshaped (raw : ndarray) :
  (shape (clip 0 1 raw) = shape raw /\
   length (data (clip 0 1 raw)) = length (data raw) /\
   Forall (fun v => (0 <= v <= 1)%Q) (data (clip 0 1 raw)) /\
   forall i v, nth_error (data raw) i = Some v ->
     exists v', nth_error (data (clip 0 1 raw)) i = Some v' /\
       ((v < 0)%Q -> v' = 0%Q) /\ ((1 < v)%Q -> v' = 1%Q) /\
       ((0 <= v <= 1)%Q -> v' = v)) /\
  (forall n, length (data raw) = n * (256 * 256 * 3) ->
     exists out imgs,
       Pipeline.postprocess raw = Some out /\
       shape out = [n; 256; 256; 3] /\
       data out = data (clip 0 1 raw) /\
       rows out = Some imgs /\
       length imgs = n /\
       Forall (fun im => shape im = [256; 256; 3] /\
                         length (data im) = 256 * 256 * 3) imgs) /\
  (forall out, Pipeline.postprocess raw = Some out ->
     exists n, shape out = [n; 256; 256; 3] /\
               length (data raw) = n * (256 * 256 * 3) /\
               data out = data (clip 0 1 raw)).
Proof.
  split; [|split].
  - cbn [clip shape data]. split; [reflexivity|]. split; [apply length_map|].
    split.
    + apply Forall_map, Forall_forall. intros v _. apply clip_scalar_unit.
    + intros i v Hv. exists (clip_scalar 0 1 v). split.
      * now rewrite nth_error_map, Hv.
      * apply clip_scalar_unit.
  - intros n Hl. rewrite (postprocess_spec raw n Hl).
    set (out := mk_ndarray [n; 256; 256; 3] (map (clip_scalar 0 1) (data raw))).
    assert (Hlo : length (data out) = n * size_of [256; 256; 3]).
    { unfold out. cbn [data]. now rewrite length_map, size_of_image. }
    destruct (@rows_spec out n [256; 256; 3] eq_refl Hlo)
      as (imgs & Hr & Hn & HF & _).
    exists out, imgs. split; [reflexivity|]. split; [reflexivity|].
    split; [reflexivity|]. split; [exact Hr|]. split; [exact Hn|].
    eapply Forall_impl; [|exact HF]. intros im [Hs Hw]. split; [exact Hs|].
    unfold wf in Hw. now rewrite Hw, Hs, size_of_image.
  - intros out Hout. destruct (postprocess_inv raw out Hout) as [-> Hl].
    eexists. split; [reflexivity|]. split; [exact Hl | reflexivity].
Qed.

End NDArrayFacts.

(** ** The tokenizer adapter *)

Module TokenizerFacts.

Lemma encode_row_length (t : Tokenizer) (L : nat) (s : string) :
  2 <= L ->
  length (fst (encode_row t L s)) = L /\ length (snd (encode_row t L s)) = L.
Proof.
  intros HL. unfold encode_row. cbn [fst snd].
  rewrite !length_app, !repeat_length. cbn [length].
  rewrite length_app, length_firstn. cbn [length]. lia.
Qed.

Lemma encode_row_long (t : Tokenizer) (L : nat) (s : string) :
  2 <= L -> L - 2 < length (encode t s) ->
  encode_row t L s =
    (bos_token_id t :: firstn (L - 2) (encode t s) ++ [eos_token_id t],
     repeat 1%Z L).
Proof.
  intros HL Hlong. unfold encode_row.
  assert (Hf : length (bos_token_id t :: firstn (L - 2) (encode t s) ++ [eos_token_id t]) = L).
  { cbn [length]. rewrite length_app, length_firstn. cbn [length]. lia. }
  rewrite Hf, Nat.sub_diag. cbn [repeat]. now rewrite !app_nil_r.
Qed.

Lemma encode_row_short (t : Tokenizer) (L : nat) (s : string) :
  length (encode t s) <= L - 2 ->
  encode_row t L s =
    ((bos_token_id t :: encode t s ++ [eos_token_id t])
       ++ repeat (pad_token_id t) (L - (length (encode t s) + 2)),
     repeat 1%Z (length (encode t s) + 2)
       ++ repeat 0%Z (L - (length (encode t s) + 2))).
Proof.
  intros Hshort. unfold encode_row.
  rewrite firstn_all2 by exact Hshort.
  assert (Hf : length (bos_token_id t :: encode t s ++ [eos_token_id t])
               = length (encode t s) + 2).
  { cbn [length]. rewrite length_app. cbn [length]. lia. }
  now rewrite Hf.
Qed.

Lemma encode_row_ext (t1 t2 : Tokenizer) (L : nat) (s : string) :
  (forall x, encode t1 x = encode t2 x) ->
  bos_token_id t1 = bos_token_id t2 ->
  eos_token_id t1 = eos_token_id t2 ->
  pad_token_id t1 = pad_token_id t2 ->
  encode_row t1 L s = encode_row t2 L s.
Proof.
  intros He Hb Hs Hp. unfold encode_row. now rewrite He, Hb, Hs, Hp.
Qed.

Lemma tokenizer_call_repeat (t : Tokenizer) (L : nat) (s : string) (n : nat) :
  tokenizer_call t L (repeat s n) =
    mk_encoding (repeat (fst (encode_row t L s)) n)
                (repeat (snd (encode_row t L s)) n).
Proof.
  unfold tokenizer_call. now rewrite !map_map, !map_repeat.
Qed.

Lemma Forall_repeat {A : Type} (P : A -> Prop) (x : A) (n : nat) :
  P x -> Forall P (repeat x n).
Proof. intros Hx. induction n; simpl; constructor; assumption. Qed.

End TokenizerFacts.

(** ** The generation loop *)

Module PipelineFacts.
Import Distributor DistributorFacts NDArray NDArrayFacts Pipeline TokenizerFacts.

Lemma concat_length_uniform {A : Type} (xss : list (list A)) (m : nat) :
  Forall (fun x => length x = m) xss -> length (concat xss) = length xss * m.
Proof.
  induction 1 as [|x xss Hx _ IH]; simpl; [reflexivity|].
  rewrite length_app. lia.
Qed.

Lemma stack_spec (xs : list ndarray) (s : list nat) :
  xs <> [] -> Forall (fun y => shape y = s) xs ->
  stack xs = Some (mk_ndarray (length xs :: s) (concat (map data xs))).
Proof.
  intros Hne HF. destruct xs as [|x xs']; [congruence|].
  assert (Hx : shape x = s) by (inversion HF; assumption).
  unfold stack.
  replace (forallb (fun y => shape_eqb (shape y) (shape x)) (x :: xs')) with true.
  - now rewrite Hx.
  - symmetry. apply forallb_forall. intros y Hy.
    rewrite Forall_forall in HF. unfold shape_eqb.
    rewrite (HF y Hy), Hx. destruct (list_eq_dec Nat.eq_dec s s); congruence.
Qed.

Lemma remove_bos_shape (seqs : list (list (list Z))) (n : nat) :
  length seqs = n -> Forall (batch_of 1 257) seqs ->
  length (remove_bos seqs) = n /\ Forall (batch_of 1 256) (remove_bos seqs).
Proof.
  intros Hl HF. unfold remove_bos. split; [now rewrite length_map|].
  apply Forall_map. eapply Forall_impl; [|exact HF].
  intros d [Hd Hs]. split; [now rewrite length_map|].
  apply Forall_map. eapply Forall_impl; [|exact Hs].
  intros s Hlen. cbv beta in *. rewrite length_skipn, Hlen. reflexivity.
Qed.

Lemma to_image_256 (r : ndarray) :
  shape r = [256; 256; 3] -> wf r -> image_256 (to_image r).
Proof.
  intros Hs Hw. unfold image_256, to_image. cbn [im_shape im_bytes].
  split; [exact Hs|]. rewrite length_map. unfold wf in Hw.
  now rewrite Hw, Hs, size_of_image.
Qed.

Section WithContract.
Variable E : Externals.
Hypothesis HC : Contract E.

Lemma tokenized_prompt_sharded (prompt : string) :
  exists tok,
    shard_encoding (device_count E) (tokenized_prompt E prompt) = Some tok /\
    one_row_per_device E tok.
Proof.
  pose proof (c_devices HC) as HW.
  unfold shard_encoding, tokenized_prompt, repeated_prompts.
  rewrite tokenizer_call_repeat. cbn [input_ids attention_mask].
  rewrite !(shard_multiple (device_count E) 1)
    by (try rewrite repeat_length; lia).
  eexists. split; [reflexivity|].
  unfold one_row_per_device. cbn [fst snd]. rewrite !chunks_length.
  repeat split. apply chunks_Forall_length. rewrite repeat_length. lia.
Qed.

Lemma p_generate_ok tok (keys : list (Key E)) k p :
  one_row_per_device E tok -> length keys = device_count E ->
  exists seqs,
    p_generate E tok keys k p = Some seqs /\
    length seqs = device_count E /\
    Forall (batch_of 1 257) seqs.
Proof.
  intros (H1 & H2 & H3) Hk. unfold p_generate, zip_mapped, pmap.
  rewrite H1, H2, Nat.eqb_refl.
  rewrite !length_combine, H1, H2, Nat.min_id, Hk, Nat.eqb_refl.
  rewrite !length_combine, H1, H2, Hk, !Nat.min_id, Nat.leb_refl.
  eexists. split; [reflexivity|]. split.
  - rewrite length_map, !length_combine. lia.
  - apply Forall_map. rewrite Forall_forall. intros [[i m] ky] Hin.
    cbn [fst snd]. pose proof (c_generate HC (mk_encoding i m) ky k p) as Hg.
    cbn [input_ids] in Hg.
    apply in_combine_l in Hin. apply in_combine_l in Hin.
    rewrite Forall_forall in H3. now rewrite (H3 i Hin) in Hg.
Qed.

Lemma p_decode_ok (idx : list (list (list Z))) :
  length idx = device_count E -> Forall (batch_of 1 256) idx ->
  exists a,
    p_decode E idx = Some a /\
    length (data a) = device_count E * (256 * 256 * 3).
Proof.
  intros Hl HF. pose proof (c_devices HC) as HW.
  unfold p_decode, pmap. rewrite Hl, Nat.leb_refl.
  rewrite (stack_spec (map (vqgan_decode_code E) idx) [1; 256; 256; 3]).
  - eexists. split; [reflexivity|]. cbn [data].
    rewrite (concat_length_uniform _ (256 * 256 * 3)).
    + rewrite !length_map. lia.
    + apply Forall_map, Forall_map. eapply Forall_impl; [|exact HF].
      intros d [Hd H256]. cbv beta. pose proof (c_decode_wf HC d) as Hw.
      unfold wf in Hw. rewrite Hw, (c_decode_shape HC d H256), Hd.
      unfold size_of, fold_right. lia.
  - destruct idx; [simpl in Hl; lia | discriminate].
  - apply Forall_map. eapply Forall_impl; [|exact HF].
    intros d [Hd H256]. cbv beta. now rewrite (c_decode_shape HC d H256), Hd.
Qed.

Lemma generate_step_spec tok k p (st : State E) :
  one_row_per_device E tok ->
  exists st' it,
    generate_step E tok k p st = Some st' /\
    random_split E (key st) 2 = [key st'; it_subkey it] /\
    log st' = log st ++ [it] /\
    images st' = images st ++ it_images it /\
    iteration_ok E it.
Proof.
  intros Htok. unfold generate_step.
  pose proof (c_split HC (key st) 2) as H2.
  destruct (random_split E (key st) 2) as [|key' [|subkey [|? ?]]];
    try discriminate H2.
  assert (Hk : length (shard_prng_key E subkey) = device_count E)
    by apply (c_split HC).
  destruct (p_generate_ok tok (shard_prng_key E subkey) k p Htok Hk)
    as (seqs & -> & Hls & HFs).
  destruct (remove_bos_shape seqs (device_count E) Hls HFs) as [Hlr HFr].
  destruct (p_decode_ok (remove_bos seqs) Hlr HFr) as (dec & -> & Hld).
  rewrite (postprocess_spec dec (device_count E) Hld).
  set (out := mk_ndarray [device_count E; 256; 256; 3]
                         (map (clip_scalar 0 1) (data dec))).
  assert (Hlo : length (data out) = device_count E * size_of [256; 256; 3]).
  { unfold out. cbn [data]. now rewrite length_map, size_of_image. }
  destruct (@rows_spec out (device_count E) [256; 256; 3] eq_refl Hlo)
    as (rs & -> & Hn & HF & _).
  eexists.
  exists (mk_iteration subkey (shard_prng_key E subkey) seqs (remove_bos seqs)
                       (map to_image rs)).
  split; [reflexivity|]. unfold iteration_ok.
  cbn [key log images it_subkey it_worker_keys it_sequences it_decoder_input it_images].
  repeat split; try assumption.
  - now rewrite length_map.
  - apply Forall_map. eapply Forall_impl; [|exact HF].
    intros r [Hs Hw]. now apply to_image_256.
Qed.

Lemma generate_loop_spec tok k p (n : nat) (st : State E) :
  one_row_per_device E tok ->
  exists st' its,
    generate_loop E n tok k p st = Some st' /\
    log st' = log st ++ its /\
    length its = n /\
    images st' = images st ++ concat (map it_images its) /\
    Forall (iteration_ok E) its /\
    map it_subkey its = subkey_sequence E (key st) n.
Proof.
  intros Htok. revert st. induction n as [|n IH]; intros st.
  - exists st, []. cbn. rewrite !app_nil_r. repeat split. constructor.
  - destruct (generate_step_spec tok k p st Htok) as (st1 & it & Hs & Hsp & Hl & Hi & Hok).
    destruct (IH st1) as (st' & its & Hloop & Hl' & Hn & Hi' & HF & Hsub).
    exists st', (it :: its). cbn [generate_loop]. rewrite Hs.
    split; [exact Hloop|].
    split; [rewrite Hl', Hl, <- app_assoc; reflexivity|].
    split; [cbn [length]; lia|].
    split; [rewrite Hi', Hi, <- app_assoc; reflexivity|].
    split; [constructor; assumption|].
    cbn [map subkey_sequence]. rewrite Hsp, Hsub. reflexivity.
Qed.

(** The generation cells always run to completion, whatever the prediction
    count: [n_predictions / device_count] iterations, each as expected. *)
Lemma generation_spec (seed : Z) (prompt : string) (n_predictions : nat) k p :
  exists st,
    generation E seed prompt n_predictions k p = Some st /\
    length (log st) = n_predictions / device_count E /\
    Forall (iteration_ok E) (log st) /\
    images st = concat (map it_images (log st)) /\
    length (images st) = device_count E * (n_predictions / device_count E) /\
    Forall image_256 (images st) /\
    map it_subkey (log st) =
      subkey_sequence E (PRNGKey E seed) (n_predictions / device_count E).
Proof.
  unfold generation.
  destruct (tokenized_prompt_sharded prompt) as (tok & -> & Htok).
  destruct (generate_loop_spec tok k p (n_predictions / device_count E)
              (mk_state (PRNGKey E seed) [] []) Htok)
    as (st & its & -> & Hl & Hn & Hi & HF & Hsub).
  cbn [log images key app] in Hl, Hi, Hsub.
  exists st. rewrite Hl. repeat split; try assumption.
  - rewrite Hi. rewrite (concat_length_uniform _ (device_count E)).
    + rewrite length_map. lia.
    + apply Forall_map. eapply Forall_impl; [|exact HF].
      intros it Hit. apply Hit.
  - rewrite Hi. apply Forall_concat. apply Forall_map.
    eapply Forall_impl; [|exact HF]. intros it Hit. apply Hit.
Qed.
End WithContract.

End PipelineFacts.

(** ** Ranking *)

Module RankingFacts.
Import Pipeline.

Lemma StronglySorted_snoc {A : Type} (R : A -> A -> Prop) (l : list A) (x : A) :
  StronglySorted R l -> Forall (fun y => R y x) l -> StronglySorted R (l ++ [x]).
Proof.
  induction 1 as [|a l Hs IH Ha]; intros HF; simpl.
  - repeat constructor.
  - inversion HF; subst. constructor; [now apply IH|].
    apply Forall_app. split; [assumption|]. now constructor.
Qed.

Lemma StronglySorted_rev {A : Type} (R : A -> A -> Prop) (l : list A) :
  StronglySorted R l -> StronglySorted (fun a b => R b a) (rev l).
Proof.
  induction 1 as [|a l Hs IH Ha]; simpl; [constructor|].
  apply StronglySorted_snoc; [exact IH|].
  apply Forall_rev. exact Ha.
Qed.

Lemma StronglySorted_map {A B : Type} (R : B -> B -> Prop) (f : A -> B) (l : list A) :
  StronglySorted (fun a b => R (f a) (f b)) l -> StronglySorted R (map f l).
Proof.
  induction 1 as [|a l Hs IH Ha]; simpl; constructor; [exact IH|].
  now apply Forall_map.
Qed.

(** Reversing an ascending argsort gives a descending ranking of all the
    indices. *)
Lemma ranked_spec (E : Externals) (scores : list Q) :
  argsort_contract (argsort E) ->
  Permutation (ranked E scores) (seq 0 (length scores)) /\
  StronglySorted (fun i j => (nth j scores 0 <= nth i scores 0)%Q)
                 (ranked E scores).
Proof.
  intros HA. destruct (HA scores) as [HP HS]. unfold ranked. split.
  - etransitivity; [symmetry; apply Permutation_rev | exact HP].
  - now apply StronglySorted_rev in HS.
Qed.

Lemma three_distinct_scores (l : list nat) :
  Permutation l [0; 1; 2] ->
  StronglySorted
    (fun i j => (nth i [71 # 100; 95 # 100; 33 # 100] 0
                 <= nth j [71 # 100; 95 # 100; 33 # 100] 0)%Q) l ->
  l = [2; 0; 1].
Proof.
  intros HP HS.
  pose proof (Permutation_length HP) as HL.
  destruct l as [|a [|b [|c [|? ?]]]]; try discriminate HL.
  assert (Hin : forall x, In x [a; b; c] -> x = 0 \/ x = 1 \/ x = 2).
  { intros x Hx. apply (Permutation_in _ HP) in Hx. simpl in Hx. intuition auto. }
  assert (HN : NoDup [a; b; c]).
  { eapply Permutation_NoDup; [symmetry; exact HP|].
    repeat constructor; simpl; intuition discriminate. }
  assert (Hab : a <> b /\ a <> c /\ b <> c).
  { inversion HN as [|? ? Ha HN']; subst. inversion HN' as [|? ? Hb _]; subst.
    simpl in Ha, Hb. intuition auto. }
  inversion HS as [|? ? HS' HFa]; subst.
  inversion HS' as [|? ? _ HFb]; subst.
  inversion HFa as [|? ? Rab HFa']; subst. inversion HFa' as [|? ? Rac _]; subst.
  inversion HFb as [|? ? Rbc _]; subst.
  destruct (Hin a) as [-> | [-> | ->]]; [simpl; auto| | |];
    (destruct (Hin b) as [-> | [-> | ->]]; [simpl; auto| | |]);
    (destruct (Hin c) as [-> | [-> | ->]]; [simpl; auto| | |]);
    try reflexivity; exfalso;
    try (destruct Hab as (? & ? & ?); congruence);
    cbn [nth] in Rab, Rac, Rbc; unfold Qle in Rab, Rac, Rbc;
    cbn in Rab, Rac, Rbc; lia.
Qed.

(** C1: the presentation order [logits.argsort()[::-1]] is a permutation of
    the indices of the scores along which the scores never increase; for the
    scores 0.71, 0.95, 0.33 it is 1, 0, 2.  This holds for every argsort that
    returns the indices in ascending order of value. *)
Theorem ranking_descending (E : Externals) (scores : list Q) :
  argsort_contract (argsort E) ->
  Permutation (ranked E scores) (seq 0 (length scores)) /\
  StronglySorted (fun i j => (nth j scores 0 <= nth i scores 0)%Q)
                 (ranked E scores) /\
  ranked E [71 # 100; 95 # 100; 33 # 100] = [1; 0; 2].
Proof.
  intros HA. destruct (ranked_spec E scores HA) as [HP HS].
  split; [exact HP|]. split; [exact HS|].
  destruct (HA [71 # 100; 95 # 100; 33 # 100]) as [HP3 HS3].
  unfold ranked. now rewrite (three_distinct_scores _ HP3 HS3).
Qed.

Lemma present_spec (imgs : list Image) (logits : list Q) (order : list nat) :
  (forall idx, In idx order -> idx < length imgs /\ idx < length logits) ->
  exists shown,
    present imgs logits order = Some shown /\
    Forall2 (fun idx pr => nth_error imgs idx = Some (fst pr) /\
                           nth_error logits idx = Some (snd pr)) order shown.
Proof.
  induction order as [|idx order IH]; intros Hin.
  - exists []. split; [reflexivity | constructor].
  - destruct IH as (shown & Hs & HF); [intros; apply Hin; now right|].
    destruct (Hin idx (or_introl eq_refl)) as [Hi Hl].
    destruct (nth_error imgs idx) as [im|] eqn:Him;
      [|apply nth_error_None in Him; lia].
    destruct (nth_error logits idx) as [sc|] eqn:Hsc;
      [|apply nth_error_None in Hsc; lia].
    exists ((im, sc) :: shown). cbn [present]. rewrite Him, Hsc, Hs.
    split; [reflexivity|]. constructor; [now split | exact HF].
Qed.

Lemma shown_scores (imgs : list Image) (logits : list Q) (order : list nat)
    (shown : list (Image * Q)) :
  Forall2 (fun idx pr => nth_error imgs idx = Some (fst pr) /\
                         nth_error logits idx = Some (snd pr)) order shown ->
  length shown = length order /\
  map snd shown = map (fun i => nth i logits 0%Q) order.
Proof.
  induction 1 as [|idx pr order shown [_ Hs] _ [IHl IHm]]; [now split|].
  cbn [length map]. split; [now rewrite IHl|].
  rewrite IHm. f_equal. symmetry. now apply nth_error_nth.
Qed.

End RankingFacts.

(** ** Scoring *)

Module ScoringFacts.
Import Distributor DistributorFacts NDArray Pipeline TokenizerFacts.

Lemma combine_repeat_l {A B : Type} (a : A) (l : list B) (n : nat) :
  length l = n -> combine (repeat a n) l = map (pair a) l.
Proof.
  revert n; induction l as [|b l IH]; intros [|n] Hl; simpl in *;
    try discriminate; try reflexivity.
  f_equal. apply IH. lia.
Qed.

Lemma concat_map_singleton {A B : Type} (g : A -> B) (l : list A) :
  concat (map (fun x => [g x]) l) = map g l.
Proof. induction l as [|x l IH]; simpl; congruence. Qed.

Lemma chunks_repeat_singletons {A : Type} (a : A) (n : nat) :
  chunks 1 n (repeat a n) = repeat [a] n.
Proof.
  rewrite chunks_singletons by apply repeat_length. apply map_repeat.
Qed.

(** The text row and mask the scoring stage compares every image with. *)
Lemma scoring_spec (E : Externals) (prompt : string) (imgs : list Image) (k : nat) :
  0 < device_count E ->
  length imgs = device_count E * k ->
  clip_image_features E imgs = Some (map (clip_preprocess E) imgs) ->
  scoring E prompt imgs =
    Some (map (fun im =>
                 clip_similarity E (fst (encode_row (clip_tokenizer E) 77 prompt))
                                   (snd (encode_row (clip_tokenizer E) 77 prompt))
                                   (clip_preprocess E im)) imgs).
Proof.
  intros HW Hl Hf. unfold scoring, processor. rewrite Hf.
  cbn [ci_input_ids ci_attention_mask ci_pixel_values].
  rewrite tokenizer_call_repeat. cbn [input_ids attention_mask].
  rewrite !(shard_multiple (device_count E) 1)
    by (try rewrite repeat_length; lia).
  rewrite (shard_multiple (device_count E) k) by (try rewrite length_map; lia).
  rewrite !chunks_repeat_singletons.
  unfold p_clip, zip_mapped, pmap.
  rewrite !repeat_length, Nat.eqb_refl.
  rewrite (combine_repeat_l _ (repeat _ _) _ (repeat_length _ _)), map_repeat.
  rewrite repeat_length, chunks_length, Nat.eqb_refl.
  rewrite (combine_repeat_l _ (chunks _ _ _) _ (chunks_length _ _ _)).
  rewrite !length_map, chunks_length, Nat.leb_refl.
  f_equal. unfold squeeze_flatten, logits_per_image.
  rewrite !map_map. cbn [fst snd combine map].
  rewrite (map_ext _ (map (fun px => clip_similarity E
                             (fst (encode_row (clip_tokenizer E) 77 prompt))
                             (snd (encode_row (clip_tokenizer E) 77 prompt)) px)))
    by (intros c; apply concat_map_singleton).
  rewrite <- concat_map, chunks_concat by (rewrite length_map; lia).
  now rewrite map_map.
Qed.

Lemma scoring_inv (E : Externals) (prompt : string) (imgs : list Image)
    (scores : list Q) :
  (forall px, clip_image_features E imgs = Some px ->
              px = map (clip_preprocess E) imgs) ->
  scoring E prompt imgs = Some scores ->
  scores = map (fun im =>
                  clip_similarity E (fst (encode_row (clip_tokenizer E) 77 prompt))
                                    (snd (encode_row (clip_tokenizer E) 77 prompt))
                                    (clip_preprocess E im)) imgs.
Proof.
  intros Hinv Hs. pose proof Hs as Hs'. unfold scoring, processor in Hs'.
  destruct (clip_image_features E imgs) as [px|] eqn:Hf; [|discriminate].
  cbn [ci_input_ids ci_attention_mask ci_pixel_values] in Hs'.
  bind_inv Hs'. bind_inv Hs'. bind_inv Hs'.
  pose proof (Hinv px eq_refl) as Hpx. subst px.
  match goal with H : shard _ (map _ imgs) = Some _ |- _ =>
    destruct (shard_inv _ _ _ H) as (HW & Hl & _) end.
  rewrite length_map in Hl.
  rewrite (scoring_spec E prompt imgs _ HW Hl Hf) in Hs. now inversion Hs.
Qed.

End ScoringFacts.

(** ** The executable instance meets the contracts *)

Module ExampleFacts.
Import Distributor NDArray Pipeline Example PipelineFacts.

Lemma insert_index_perm (l : list Q) (i : nat) (s : list nat) :
  Permutation (insert_index l i s) (i :: s).
Proof.
  induction s as [|j s IH]; simpl; [reflexivity|].
  destruct (Qle_bool (nth i l 0%Q) (nth j l 0%Q)); [reflexivity|].
  etransitivity; [apply perm_skip, IH | apply perm_swap].
Qed.

Lemma insert_index_sorted (l : list Q) (i : nat) (s : list nat) :
  StronglySorted (fun a b => (nth a l 0 <= nth b l 0)%Q) s ->
  StronglySorted (fun a b => (nth a l 0 <= nth b l 0)%Q) (insert_index l i s).
Proof.
  induction 1 as [|j s Hs IH Hj]; simpl; [repeat constructor|].
  destruct (Qle_bool (nth i l 0%Q) (nth j l 0%Q)) eqn:Hle.
  - apply Qle_bool_iff in Hle. constructor; [now constructor|].
    constructor; [exact Hle|].
    eapply Forall_impl; [|exact Hj]. intros r Hr. cbv beta in *.
    eapply Qle_trans; eassumption.
  - assert (Hji : (nth j l 0 <= nth i l 0)%Q).
    { destruct (Qlt_le_dec (nth j l 0%Q) (nth i l 0%Q)) as [Hlt|Hge].
      - now apply Qlt_le_weak.
      - apply Qle_bool_iff in Hge. congruence. }
    constructor; [exact IH|].
    eapply Permutation_Forall; [symmetry; apply insert_index_perm|].
    now constructor.
Qed.

Lemma insertion_argsort_contract : argsort_contract insertion_argsort.
Proof.
  intros l. unfold insertion_argsort.
  generalize (seq 0 (length l)) as idxs.
  induction idxs as [|i idxs [IHp IHs]]; simpl.
  - split; constructor.
  - split.
    + etransitivity; [apply insert_index_perm | now apply perm_skip].
    + now apply insert_index_sorted.
Qed.

Lemma paint_length (idx : list (list Z)) :
  length (data (paint idx)) = length idx * (256 * 256 * 3).
Proof.
  unfold paint. cbn [data].
  rewrite (concat_length_uniform _ (256 * 256 * 3)).
  - now rewrite length_map.
  - apply Forall_map, Forall_forall. intros s _. apply repeat_length.
Qed.

Lemma externals_contract (n : nat) : 0 < n -> Contract (externals n).
Proof.
  intros Hn. constructor; cbn.
  - exact Hn.
  - intros k m. unfold tree_split. now rewrite length_map, length_seq.
  - intros enc k tk tp. unfold sample. split; [apply length_map|].
    apply Forall_map, Forall_forall. intros row _. cbn [length].
    rewrite length_firstn, !length_app, repeat_length. lia.
  - reflexivity.
  - intros idx. unfold wf. rewrite paint_length.
    unfold paint, size_of, fold_right. cbn [shape]. lia.
  - intros [|im imgs] Hne; [congruence | reflexivity].
  - intros [|im imgs] px Hpx; [discriminate | now inversion Hpx].
  - apply insertion_argsort_contract.
Qed.

End ExampleFacts.

(** ** End-to-end properties of the run *)

Module RunFacts.
Import Distributor DistributorFacts NDArray Pipeline.
Import PipelineFacts ScoringFacts RankingFacts.

Lemma exact_division (N W : nat) : N mod W = 0 -> W * (N / W) = N.
Proof. intros Hm. pose proof (Nat.div_mod_eq N W). lia. Qed.

(** The whole notebook on a positive prediction count that the device count
    divides. *)
Lemma run_spec (E : Externals) (seed : Z) (prompt : string) (N : nat)
    (k : option Z) (p : option Q) :
  Contract E -> 0 < N -> N mod device_count E = 0 ->
  exists out,
    run E seed prompt N k p = Some out /\
    length (log (out_state out)) = N / device_count E /\
    Forall (iteration_ok E) (log (out_state out)) /\
    length (images (out_state out)) = N /\
    length (out_logits out) = N /\
    length (out_presented out) = N /\
    Forall2 (fun idx pr =>
               nth_error (images (out_state out)) idx = Some (fst pr) /\
               nth_error (out_logits out) idx = Some (snd pr))
            (ranked E (out_logits out)) (out_presented out) /\
    StronglySorted (fun a b => (b <= a)%Q) (map snd (out_presented out)).
Proof.
  intros HC HN Hdiv. pose proof (c_devices HC) as HW.
  destruct (generation_spec E HC seed prompt N k p)
    as (st & Hgen & Hlog & Hits & _ & Hlen & _ & _).
  rewrite (exact_division _ _ Hdiv) in Hlen.
  assert (Hne : images st <> []).
  { intros Hnil. rewrite Hnil in Hlen. simpl in Hlen. lia. }
  assert (Hlen' : length (images st) = device_count E * (N / device_count E))
    by now rewrite exact_division.
  pose proof (scoring_spec E prompt (images st) _ HW Hlen'
                (c_features HC _ Hne)) as Hsc.
  set (logits := map _ (images st)) in Hsc.
  assert (Hll : length logits = N) by (unfold logits; now rewrite length_map).
  destruct (ranked_spec E logits (c_argsort HC)) as [HP HS].
  destruct (present_spec (images st) logits (ranked E logits))
    as (shown & Hshow & HF2).
  { intros idx Hin. apply (Permutation_in _ HP), in_seq in Hin. lia. }
  destruct (shown_scores _ _ _ _ HF2) as [Hls Hms].
  exists (mk_output st logits shown). unfold run.
  rewrite Hgen, Hsc, Hshow. cbn [out_state out_logits out_presented].
  repeat split; try assumption.
  - rewrite Hls, (Permutation_length HP), length_seq. exact Hll.
  - rewrite Hms. now apply StronglySorted_map.
Qed.

(** C2 (amended): for a positive prediction count N that the worker count W
    divides, the run completes with exactly N / W generation iterations,
    each yielding one image-token sequence per worker, N images and N
    scores, presented in descending order of score in which equal scores may
    follow each other. *)
Theorem run_counts_and_order (E : Externals) (seed : Z) (prompt : string)
    (N : nat) (k : option Z) (p : option Q) :
  Contract E -> 0 < N -> N mod device_count E = 0 ->
  exists out,
    run E seed prompt N k p = Some out /\
    length (log (out_state out)) = N / device_count E /\
    Forall (iteration_ok E) (log (out_state out)) /\
    length (images (out_state out)) = N /\
    length (out_logits out) = N /\
    length (out_presented out) = N /\
    Forall2 (fun idx pr =>
               nth_error (images (out_state out)) idx = Some (fst pr) /\
               nth_error (out_logits out) idx = Some (snd pr))
            (ranked E (out_logits out)) (out_presented out) /\
    StronglySorted (fun a b => (b <= a)%Q) (map snd (out_presented out)).
Proof. exact (run_spec E seed prompt N k p). Qed.

(** C9: when the device count does not divide the prediction count, the
    loop still completes, with floor(N / W) iterations and W * floor(N / W)
    images, fewer than N by N mod W; below W there is no iteration and no
    image. *)
Theorem generation_drops_remainder (E : Externals) (seed : Z) (prompt : string)
    (N : nat) (k : option Z) (p : option Q) :
  Contract E -> N mod device_count E <> 0 ->
  exists st,
    generation E seed prompt N k p = Some st /\
    length (log st) = N / device_count E /\
    length (images st) = device_count E * (N / device_count E) /\
    length (images st) < N /\
    N - length (images st) = N mod device_count E /\
    (N < device_count E -> log st = [] /\ images st = []).
Proof.
  intros HC Hrem.
  destruct (generation_spec E HC seed prompt N k p)
    as (st & Hgen & Hlog & _ & _ & Hlen & _ & _).
  pose proof (Nat.div_mod_eq N (device_count E)) as Hdm.
  exists st. repeat split; try assumption; try lia.
  - apply length_zero_iff_nil. rewrite Hlog. now apply Nat.div_small.
  - apply length_zero_iff_nil. rewrite Hlen, Nat.div_small by assumption. lia.
Qed.

End RunFacts.

(** ** Stage by stage *)

Module StageFacts.
Import Distributor DistributorFacts NDArray Pipeline.
Import TokenizerFacts PipelineFacts ScoringFacts.

Lemma generate_step_inv (E : Externals) tok k p (st st' : State E) :
  generate_step E tok k p st = Some st' ->
  exists subkey seqs decoded decoded_images imgs,
    random_split E (key st) 2 = [key st'; subkey] /\
    p_generate E tok (shard_prng_key E subkey) k p = Some seqs /\
    p_decode E (remove_bos seqs) = Some decoded /\
    postprocess decoded = Some decoded_images /\
    rows decoded_images = Some imgs /\
    log st' = log st ++ [mk_iteration subkey (shard_prng_key E subkey) seqs
                                      (remove_bos seqs) (map to_image imgs)] /\
    images st' = images st ++ map to_image imgs.
Proof.
  unfold generate_step. intros H.
  destruct (random_split E (key st) 2) as [|key' [|subkey [|? ?]]];
    try discriminate H.
  bind_inv H. bind_inv H. bind_inv H. bind_inv H.
  injection H as <-. cbn [key log images].
  do 5 eexists. repeat split; eassumption.
Qed.

Lemma remove_bos_nth (seqs : list (list (list Z))) (d : nat) (dev : list (list Z)) :
  nth_error seqs d = Some dev ->
  nth_error (remove_bos seqs) d = Some (map (skipn 1) dev).
Proof. intros H. unfold remove_bos. now rewrite nth_error_map, H. Qed.

(** C4: in every pass of the loop the decoder receives the generated
    sequences with exactly their first token removed: the array keeps its
    device and batch layout, a sequence [t :: rest] arrives as [rest] (the
    other tokens, in order), and an empty sequence stays empty. *)
Theorem bos_stripped_before_decoding (E : Externals) tok k p (st st' : State E) :
  generate_step E tok k p st = Some st' ->
  exists it decoded,
    log st' = log st ++ [it] /\
    p_generate E tok (it_worker_keys it) k p = Some (it_sequences it) /\
    p_decode E (it_decoder_input it) = Some decoded /\
    length (it_decoder_input it) = length (it_sequences it) /\
    forall d dev, nth_error (it_sequences it) d = Some dev ->
      exists dev',
        nth_error (it_decoder_input it) d = Some dev' /\
        length dev' = length dev /\
        (forall j t rest, nth_error dev j = Some (t :: rest) ->
                          nth_error dev' j = Some rest) /\
        (forall j, nth_error dev j = Some [] -> nth_error dev' j = Some []).
Proof.
  intros H.
  destruct (generate_step_inv E tok k p st st' H)
    as (subkey & seqs & decoded & dimgs & imgs & _ & Hg & Hd & _ & _ & Hl & _).
  eexists. exists decoded. split; [exact Hl|].
  cbn [it_worker_keys it_sequences it_decoder_input].
  split; [exact Hg|]. split; [exact Hd|].
  split; [unfold remove_bos; apply length_map|].
  intros d dev Hdev. exists (map (skipn 1) dev).
  split; [now apply remove_bos_nth|]. split; [apply length_map|].
  split; intros j; intros; rewrite nth_error_map;
    match goal with Hj : nth_error dev j = _ |- _ => now rewrite Hj end.
Qed.

Lemma tokenizer_call_ext (t1 t2 : Tokenizer) (L : nat) (texts : list string) :
  (forall x, encode t1 x = encode t2 x) ->
  bos_token_id t1 = bos_token_id t2 ->
  eos_token_id t1 = eos_token_id t2 ->
  pad_token_id t1 = pad_token_id t2 ->
  tokenizer_call t1 L texts = tokenizer_call t2 L texts.
Proof.
  intros He Hb Hs Hp. unfold tokenizer_call.
  now rewrite (map_ext _ _ (fun s => encode_row_ext t1 t2 L s He Hb Hs Hp)).
Qed.

(** C6: the tokenizer adapter is a function of the prompt, the vocabulary
    and the maximum length: a second call with a tokenizer of the same
    vocabulary and special tokens returns the identical ids and masks.
    There is one row per worker, every row of ids and of the mask has length
    128; an encoding too long for 128 positions is cut to its first 126
    tokens between the start and end tokens, a shorter one is kept whole and
    padded up to 128, the mask telling tokens from padding. *)
Theorem tokenizer_adapter_fixed_length (E : Externals) (t' : Tokenizer)
    (prompt : string) :
  (forall s, encode t' s = encode (tokenizer E) s) ->
  bos_token_id t' = bos_token_id (tokenizer E) ->
  eos_token_id t' = eos_token_id (tokenizer E) ->
  pad_token_id t' = pad_token_id (tokenizer E) ->
  let t := tokenizer E in
  let enc := encode t (processed_prompt E prompt) in
  let tp := tokenized_prompt E prompt in
  tokenizer_call t' 128 (repeated_prompts E prompt) = tp /\
  length (input_ids tp) = device_count E /\
  length (attention_mask tp) = device_count E /\
  Forall (fun r => length r = 128) (input_ids tp) /\
  Forall (fun m => length m = 128) (attention_mask tp) /\
  (126 < length enc ->
   Forall (fun r => r = bos_token_id t :: firstn 126 enc ++ [eos_token_id t])
          (input_ids tp) /\
   Forall (fun m => m = repeat 1%Z 128) (attention_mask tp)) /\
  (length enc <= 126 ->
   Forall (fun r => r = (bos_token_id t :: enc ++ [eos_token_id t])
                          ++ repeat (pad_token_id t) (126 - length enc))
          (input_ids tp) /\
   Forall (fun m => m = repeat 1%Z (length enc + 2)
                          ++ repeat 0%Z (126 - length enc))
          (attention_mask tp)).
Proof.
  intros He Hb Hs Hp. cbv zeta.
  split; [now apply tokenizer_call_ext|].
  unfold tokenized_prompt, repeated_prompts.
  rewrite tokenizer_call_repeat. cbn [input_ids attention_mask].
  rewrite !repeat_length.
  assert (H128 : 2 <= 128) by lia.
  destruct (encode_row_length (tokenizer E) 128 (processed_prompt E prompt) H128)
    as [Hi Hm].
  split; [reflexivity|]. split; [reflexivity|].
  split; [now apply Forall_repeat|]. split; [now apply Forall_repeat|].
  split.
  - intros Hlong.
    rewrite (encode_row_long (tokenizer E) 128 (processed_prompt E prompt) H128)
      by lia.
    cbn [fst snd]. change (128 - 2) with 126.
    split; now apply Forall_repeat.
  - intros Hshort.
    rewrite (encode_row_short (tokenizer E) 128 (processed_prompt E prompt))
      by lia.
    cbn [fst snd].
    replace (128 - (length (encode (tokenizer E) (processed_prompt E prompt)) + 2))
      with (126 - length (encode (tokenizer E) (processed_prompt E prompt)))
      by lia.
    split; now apply Forall_repeat.
Qed.

(** C7: whenever the scoring stage returns, it returns one score per image,
    score [i] being CLIP's similarity of image [i] with the tokenized prompt;
    and it does return for every non-empty batch of images that the device
    count divides, which every non-empty list of generated images is. *)
Theorem scoring_length_and_alignment (E : Externals) (prompt : string)
    (imgs : list Image) :
  Contract E ->
  (forall scores, scoring E prompt imgs = Some scores ->
     length scores = length imgs /\
     forall i im, nth_error imgs i = Some im ->
       nth_error scores i =
         Some (clip_similarity E (fst (encode_row (clip_tokenizer E) 77 prompt))
                                 (snd (encode_row (clip_tokenizer E) 77 prompt))
                                 (clip_preprocess E im))) /\
  (forall k, 0 < k -> length imgs = device_count E * k ->
     exists scores, scoring E prompt imgs = Some scores).
Proof.
  intros HC. split.
  - intros scores Hs.
    rewrite (scoring_inv E prompt imgs scores (c_features_inv HC imgs) Hs).
    split; [apply length_map|].
    intros i im Him. now rewrite nth_error_map, Him.
  - intros k Hk Hl. eexists.
    apply (scoring_spec E prompt imgs k (c_devices HC) Hl).
    apply (c_features HC). intros ->.
    pose proof (c_devices HC). simpl in Hl. nia.
Qed.

Lemma scoring_text_only (E : Externals) (prompt prompt' : string)
    (imgs : list Image) :
  encode_row (clip_tokenizer E) 77 prompt' = encode_row (clip_tokenizer E) 77 prompt ->
  scoring E prompt' imgs = scoring E prompt imgs.
Proof.
  intros H. unfold scoring, processor.
  now rewrite !tokenizer_call_repeat, H.
Qed.

End StageFacts.

(** ** The properties on concrete runs *)

Module Runs.
Import Distributor DistributorFacts NDArray NDArrayFacts Pipeline Example.
Import TokenizerFacts PipelineFacts ScoringFacts RankingFacts ExampleFacts.
Import RunFacts StageFacts.

(** The insertion argsort of the example on the scores 0.71, 0.95, 0.33. *)
Lemma ranking_descending_witness :
  argsort_contract (argsort (externals 1)) /\
  Permutation (ranked (externals 1) [71 # 100; 95 # 100; 33 # 100]) (seq 0 3) /\
  StronglySorted
    (fun i j => (nth j [71 # 100; 95 # 100; 33 # 100] 0
                 <= nth i [71 # 100; 95 # 100; 33 # 100] 0)%Q)
    (ranked (externals 1) [71 # 100; 95 # 100; 33 # 100]) /\
  ranked (externals 1) [71 # 100; 95 # 100; 33 # 100] = [1; 0; 2].
Proof.
  split; [exact insertion_argsort_contract|].
  exact (ranking_descending (externals 1) [71 # 100; 95 # 100; 33 # 100]
                            insertion_argsort_contract).
Defined.

(** Prediction count 8 on 4 workers. *)
Lemma run_counts_and_order_witness :
  Contract (externals 4) /\ 0 < 8 /\ 8 mod device_count (externals 4) = 0 /\
  exists out,
    run (externals 4) 42 "a red T-shirt" 8 None None = Some out /\
    length (log (out_state out)) = 2 /\
    length (images (out_state out)) = 8 /\
    length (out_logits out) = 8 /\
    length (out_presented out) = 8 /\
    StronglySorted (fun a b => (b <= a)%Q) (map snd (out_presented out)).
Proof.
  assert (HC : Contract (externals 4)) by (apply externals_contract; lia).
  assert (H8 : 0 < 8) by lia.
  assert (Hd : 8 mod device_count (externals 4) = 0) by reflexivity.
  split; [exact HC|]. split; [exact H8|]. split; [exact Hd|].
  destruct (run_counts_and_order (externals 4) 42 "a red T-shirt" 8 None None
              HC H8 Hd)
    as (out & Hrun & Hlog & _ & Himg & Hlg & Hpr & _ & Hsorted).
  exists out. split; [exact Hrun|]. split; [exact Hlog|]. split; [exact Himg|].
  split; [exact Hlg|]. split; [exact Hpr | exact Hsorted].
Defined.

(** With [top_k = 1] the example sampler is greedy: the eight images are the
    same and so are their scores. *)
Lemma greedy_run_scores :
  option_map (fun o => map snd (out_presented o))
             (run (externals 4) 42 "a red T-shirt" 8 (Some 1%Z) None)
  = Some (repeat (21 # 1) 8).
Proof. vm_cast_no_check (@eq_refl _ (Some (repeat (21 # 1) 8))). Qed.

(** C2, as stated, fails: with the prompt "a red T-shirt", prediction count 8
    and 4 workers, a run whose sampling is restricted to the single most
    probable token presents eight equal scores, which is not a strictly
    descending order. *)
Lemma run_order_not_strict :
  Contract (externals 4) /\ 8 mod device_count (externals 4) = 0 /\
  exists out,
    run (externals 4) 42 "a red T-shirt" 8 (Some 1%Z) None = Some out /\
    length (out_presented out) = 8 /\
    ~ StronglySorted (fun a b => (b < a)%Q) (map snd (out_presented out)).
Proof.
  assert (HC : Contract (externals 4)) by (apply externals_contract; lia).
  split; [exact HC|]. split; [reflexivity|].
  destruct (run_spec (externals 4) 42 "a red T-shirt" 8 (Some 1%Z) None HC)
    as (out & Hrun & _ & _ & _ & _ & Hpr & _); [lia | reflexivity |].
  exists out. split; [exact Hrun|]. split; [exact Hpr|].
  pose proof greedy_run_scores as Hg. rewrite Hrun in Hg.
  cbn [option_map] in Hg. injection Hg as Hg. rewrite Hg.
  cbn [repeat]. intros HS.
  inversion HS as [|? ? _ HF]; subst.
  inversion HF as [|? ? Hlt _]; subst.
  exact (Qlt_irrefl _ Hlt).
Qed.

(** Two painted images, one in a shade above 1 and one in a shade below 0. *)
Lemma decoding_output_clipped_and_reshaped_witness :
  length (data (paint [[6%Z]; [0%Z]])) = 2 * (256 * 256 * 3) /\
  Forall (fun v => (0 <= v <= 1)%Q) (data (clip 0 1 (paint [[6%Z]; [0%Z]]))) /\
  exists out imgs,
    postprocess (paint [[6%Z]; [0%Z]]) = Some out /\
    shape out = [2; 256; 256; 3] /\
    data out = data (clip 0 1 (paint [[6%Z]; [0%Z]])) /\
    rows out = Some imgs /\
    length imgs = 2.
Proof.
  assert (Hl : length (data (paint [[6%Z]; [0%Z]])) = 2 * (256 * 256 * 3))
    by exact (paint_length [[6%Z]; [0%Z]]).
  split; [exact Hl|].
  destruct (decoding_output_clipped_and_reshaped (paint [[6%Z]; [0%Z]]))
    as ((_ & _ & Hv & _) & Hre & _).
  split; [exact Hv|].
  destruct (Hre 2 Hl) as (out & imgs & Hp & Hs & Hd & Hr & Hn & _).
  exists out, imgs. split; [exact Hp|]. split; [exact Hs|]. split; [exact Hd|].
  split; [exact Hr | exact Hn].
Defined.

(** Prediction count 10 on 4 workers: two iterations, eight images. *)
Lemma generation_drops_remainder_witness :
  Contract (externals 4) /\ 10 mod device_count (externals 4) <> 0 /\
  exists st,
    generation (externals 4) 42 "a red T-shirt" 10 None None = Some st /\
    length (log st) = 2 /\
    length (images st) = 8 /\
    length (images st) < 10.
Proof.
  assert (HC : Contract (externals 4)) by (apply externals_contract; lia).
  assert (Hr : 10 mod device_count (externals 4) <> 0) by discriminate.
  split; [exact HC|]. split; [exact Hr|].
  destruct (generation_drops_remainder (externals 4) 42 "a red T-shirt" 10
              None None HC Hr)
    as (st & Hg & Hlog & Hlen & Hlt & _ & _).
  exists st. split; [exact Hg|]. split; [exact Hlog|].
  split; [exact Hlen | exact Hlt].
Defined.

(** One pass of the loop body on two workers. *)
Lemma bos_stripped_before_decoding_witness :
  exists st' it decoded,
    generate_step (externals 2)
      ([[[0; 97; 2]]; [[0; 97; 2]]], [[[1; 1; 1]]; [[1; 1; 1]]])%Z
      None None (mk_state (E := externals 2) [42%Z] [] []) = Some st' /\
    log st' = [it] /\
    p_decode (externals 2) (it_decoder_input it) = Some decoded /\
    length (it_decoder_input it) = length (it_sequences it).
Proof.
  assert (HC : Contract (externals 2)) by (apply externals_contract; lia).
  destruct (generate_step_spec (externals 2) HC
              ([[[0; 97; 2]]; [[0; 97; 2]]], [[[1; 1; 1]]; [[1; 1; 1]]])%Z
              None None (mk_state (E := externals 2) [42%Z] [] []))
    as (st' & _ & Hstep & _).
  { repeat split; repeat constructor. }
  destruct (bos_stripped_before_decoding (externals 2) _ None None _ st' Hstep)
    as (it & decoded & Hlog & _ & Hdec & Hlen & _).
  exists st', it, decoded. split; [exact Hstep|]. split; [exact Hlog|].
  split; [exact Hdec | exact Hlen].
Defined.

(** The prompt of the notebook on two workers. *)
Lemma tokenizer_adapter_fixed_length_witness :
  (forall s, encode (char_tokenizer 0 2 1) s = encode (tokenizer (externals 2)) s) /\
  tokenizer_call (char_tokenizer 0 2 1) 128
                 (repeated_prompts (externals 2) "a red T-shirt")
    = tokenized_prompt (externals 2) "a red T-shirt" /\
  length (input_ids (tokenized_prompt (externals 2) "a red T-shirt")) = 2 /\
  Forall (fun r => length r = 128)
         (input_ids (tokenized_prompt (externals 2) "a red T-shirt")) /\
  Forall (fun m => length m = 128)
         (attention_mask (tokenized_prompt (externals 2) "a red T-shirt")).
Proof.
  assert (He : forall s, encode (char_tokenizer 0 2 1) s
                         = encode (tokenizer (externals 2)) s)
    by (intros s; reflexivity).
  split; [exact He|].
  destruct (tokenizer_adapter_fixed_length (externals 2) (char_tokenizer 0 2 1)
              "a red T-shirt" He eq_refl eq_refl eq_refl)
    as (Hsame & Hn & _ & Hi & Hm & _).
  split; [exact Hsame|]. split; [exact Hn|]. split; [exact Hi | exact Hm].
Defined.

(** Two images on two workers. *)
Lemma scoring_length_and_alignment_witness :
  Contract (externals 2) /\
  exists scores,
    scoring (externals 2) "a red T-shirt"
            [mk_image [1] [5%Z]; mk_image [1] [200%Z]] = Some scores /\
    length scores = 2 /\
    nth_error scores 1 =
      Some (similarity
              (fst (encode_row (char_tokenizer 49406 49407 49407) 77 "a red T-shirt"))
              (snd (encode_row (char_tokenizer 49406 49407 49407) 77 "a red T-shirt"))
              (first_pixel (mk_image [1] [200%Z]))).
Proof.
  assert (HC : Contract (externals 2)) by (apply externals_contract; lia).
  split; [exact HC|].
  destruct (scoring_length_and_alignment (externals 2) "a red T-shirt"
              [mk_image [1] [5%Z]; mk_image [1] [200%Z]] HC) as [Hpart Htotal].
  destruct (Htotal 1) as [scores Hs]; [lia | reflexivity |].
  destruct (Hpart scores Hs) as [Hlen Hal].
  exists scores. split; [exact Hs|]. split; [exact Hlen|].
  exact (Hal 1 (mk_image [1] [200%Z]) eq_refl).
Defined.

End Runs.

(** * Part III: further properties of the driver *)

Module Extras.
Import Distributor DistributorFacts NDArray NDArrayFacts Pipeline Example.
Import TokenizerFacts PipelineFacts ScoringFacts RankingFacts ExampleFacts.
Import RunFacts StageFacts.

(** ** Sharding *)

Lemma chunks_of_concat {A : Type} (k : nat) (sh : list (list A)) :
  Forall (fun c => length c = k) sh -> chunks k (length sh) (concat sh) = sh.
Proof.
  induction 1 as [|c sh Hc _ IH]; [reflexivity|].
  cbn [length concat chunks].
  rewrite firstn_app, skipn_app, Hc, Nat.sub_diag.
  rewrite firstn_all2, skipn_all2 by lia.
  cbn [firstn skipn app]. now rewrite app_nil_r, IH.
Qed.

(** X1: with at least one device, [shard] succeeds exactly when the device
    count divides the leading dimension (the reshape raises otherwise), and
    then there is one shard per device, all shards hold the same number of
    rows, [length / device_count], and no row is lost. *)
Theorem shard_succeeds_iff {A : Type} (W : nat) (xs : list A) :
  0 < W ->
  ((exists sh, shard W xs = Some sh) <-> length xs mod W = 0) /\
  (forall sh, shard W xs = Some sh ->
     length sh = W /\
     Forall (fun c => length c = length xs / W) sh /\
     length (concat sh) = length xs).
Proof.
  intros HW. split; [split|].
  - intros [sh Hs]. destruct (shard_inv W xs sh Hs) as (_ & Hl & _).
    rewrite Hl at 1. rewrite Nat.mul_comm. apply Nat.Div0.mod_mul.
  - intros Hm. exists (chunks (length xs / W) W xs).
    apply shard_multiple; [exact HW|]. symmetry. now apply exact_division.
  - intros sh Hs. destruct (shard_inv W xs sh Hs) as (_ & Hl & ->).
    split; [apply chunks_length|].
    split; [apply chunks_Forall_length; lia|].
    rewrite chunks_concat by lia. reflexivity.
Qed.

(** Ten rows on four devices raise; eight rows give four shards of two. *)
Lemma shard_succeeds_iff_witness :
  shard 4 (seq 0 10) = None /\
  exists sh, shard 4 (seq 0 8) = Some sh /\ length sh = 4 /\
             Forall (fun c => length c = 2) sh.
Proof.
  assert (H4 : 0 < 4) by lia.
  destruct (shard_succeeds_iff 4 (seq 0 8) H4) as [[_ Hex] Hsh].
  destruct (Hex eq_refl) as [sh Hs].
  destruct (Hsh sh Hs) as (Hl & HF & _).
  split; [reflexivity|]. exists sh. split; [exact Hs|]. split; [exact Hl|].
  exact HF.
Defined.

(** X2: the round trip in the other direction: per-device results that all
    hold the same number of rows, once merged into one batch, reshard into
    the very same per-device results. *)
Theorem reshard_after_unshard {A : Type} (k : nat) (sh : list (list A)) :
  sh <> [] -> Forall (fun c => length c = k) sh ->
  shard (length sh) (unshard sh) = Some sh.
Proof.
  intros Hne HF. unfold unshard.
  rewrite (shard_multiple (length sh) k).
  - now rewrite chunks_of_concat.
  - destruct sh; [congruence | cbn; lia].
  - now apply concat_length_uniform.
Qed.

Lemma reshard_after_unshard_witness :
  [[1; 2]; [3; 4]; [5; 6]] <> [] /\
  shard 3 (unshard [[1; 2]; [3; 4]; [5; 6]]) = Some [[1; 2]; [3; 4]; [5; 6]].
Proof.
  assert (Hne : [[1; 2]; [3; 4]; [5; 6]] <> []) by discriminate.
  split; [exact Hne|].
  apply (reshard_after_unshard 2 [[1; 2]; [3; 4]; [5; 6]] Hne).
  repeat constructor.
Defined.

(** ** From decoded values to image bytes *)

Lemma to_uint8_scaled (x : Q) :
  (0 <= x <= 1)%Q ->
  to_uint8 (x * 255) = Qfloor (x * 255) /\
  (0 <= to_uint8 (x * 255) <= 255)%Z.
Proof.
  intros [H0 H1].
  assert (Hlo : (0 <= x * 255)%Q) by nra.
  assert (Hhi : (x * 255 <= 255)%Q) by nra.
  assert (Hf0 : (0 <= Qfloor (x * 255))%Z).
  { change 0%Z with (Qfloor 0). now apply Qfloor_resp_le. }
  assert (Hf1 : (Qfloor (x * 255) <= 255)%Z).
  { rewrite <- (Qfloor_Z 255). now apply Qfloor_resp_le. }
  assert (Hq : (Z.quot (Qnum (x * 255)) (Zpos (Qden (x * 255)))
                = Qfloor (x * 255))%Z).
  { destruct (x * 255)%Q as [n d] eqn:E. cbn [Qnum Qden Qfloor].
    apply Z.quot_div_nonneg; [|reflexivity].
    unfold Qle in Hlo. cbn in Hlo. lia. }
  unfold to_uint8. rewrite Hq, Z.mod_small by lia. split; [reflexivity | lia].
Qed.

Lemma clip_floor_ends (v : Q) :
  ((v <= 0)%Q -> Qfloor (clip_scalar 0 1 v * 255) = 0%Z) /\
  ((1 <= v)%Q -> Qfloor (clip_scalar 0 1 v * 255) = 255%Z).
Proof.
  destruct (clip_scalar_unit v) as ([Hc0 Hc1] & Hneg & Hpos & Hmid).
  split; intros Hv.
  - assert (He : (clip_scalar 0 1 v * 255 == 0)%Q).
    { destruct (Qlt_le_dec v 0) as [Hlt|Hge].
      - rewrite (Hneg Hlt). reflexivity.
      - rewrite Hmid by (split; lra). lra. }
    rewrite He. reflexivity.
  - assert (He : (clip_scalar 0 1 v * 255 == 255)%Q).
    { destruct (Qlt_le_dec 1 v) as [Hlt|Hge].
      - rewrite (Hpos Hlt). reflexivity.
      - rewrite Hmid by (split; lra). lra. }
    rewrite He. reflexivity.
Qed.

Lemma decoded_rows_data (raw out : ndarray) (imgs : list ndarray) :
  postprocess raw = Some out ->
  rows out = Some imgs ->
  concat (map data imgs) = map (clip_scalar 0 1) (data raw).
Proof.
  intros Hp Hr. destruct (postprocess_inv raw out Hp) as [-> Hl].
  set (n := length (data raw) / (256 * 256 * 3)) in *.
  set (out := mk_ndarray [n; 256; 256; 3] (map (clip_scalar 0 1) (data raw))) in *.
  assert (Hlo : length (data out) = n * size_of [256; 256; 3]).
  { unfold out. cbn [data]. now rewrite length_map, size_of_image. }
  destruct (@rows_spec out n [256; 256; 3] eq_refl Hlo)
    as (rs & Hrs & _ & _ & Hcat).
  rewrite Hrs in Hr.
  apply (f_equal (fun o => match o with Some a => a | None => imgs end)) in Hr.
  cbv beta iota in Hr. subst rs. exact Hcat.
Qed.

Lemma bytes_in_range (raw : ndarray) (imgs : list ndarray) :
  concat (map data imgs) = map (clip_scalar 0 1) (data raw) ->
  Forall (fun r => Forall (fun b => (0 <= b <= 255)%Z) (im_bytes (to_image r)))
         imgs.
Proof.
  intros Hcat. apply Forall_forall. intros r Hr. unfold to_image. cbn [im_bytes].
  apply Forall_map, Forall_forall. intros x Hx. apply to_uint8_scaled.
  assert (Hx' : In x (map (clip_scalar 0 1) (data raw))).
  { rewrite <- Hcat. apply in_concat. exists (data r). split; [|exact Hx].
    now apply in_map. }
  apply in_map_iff in Hx'. destruct Hx' as (v & <- & _). apply clip_scalar_unit.
Qed.

(** X3: the bytes of the images cut out of one decoded batch are, in
    order, floor(255 * c) for the clipped values c of the raw codec output:
    every byte lies in 0..255 (the 8-bit conversion never wraps), a raw
    value at or below 0 gives byte 0 and a raw value at or above 1 gives
    byte 255. *)
Theorem image_bytes_of_decoded (raw out : ndarray) (imgs : list ndarray) :
  postprocess raw = Some out ->
  rows out = Some imgs ->
  concat (map (fun r => im_bytes (to_image r)) imgs)
    = map (fun v => Qfloor (clip_scalar 0 1 v * 255)) (data raw) /\
  Forall (fun r => Forall (fun b => (0 <= b <= 255)%Z) (im_bytes (to_image r)))
         imgs /\
  (forall v, In v (data raw) ->
     ((v <= 0)%Q -> Qfloor (clip_scalar 0 1 v * 255) = 0%Z) /\
     ((1 <= v)%Q -> Qfloor (clip_scalar 0 1 v * 255) = 255%Z)).
Proof.
  intros Hp Hr. pose proof (decoded_rows_data raw out imgs Hp Hr) as Hcat.
  split; [|split].
  - unfold to_image. cbn [im_bytes].
    rewrite <- (map_map data (map (fun x => to_uint8 (x * 255)))).
    rewrite <- concat_map, Hcat, map_map.
    apply map_ext. intros v. apply to_uint8_scaled, clip_scalar_unit.
  - exact (bytes_in_range raw imgs Hcat).
  - intros v _. apply clip_floor_ends.
Qed.

Lemma image_bytes_of_decoded_witness :
  exists out imgs,
    postprocess (paint [[6%Z]; [0%Z]]) = Some out /\
    rows out = Some imgs /\
    Forall (fun r => Forall (fun b => (0 <= b <= 255)%Z) (im_bytes (to_image r)))
           imgs.
Proof.
  pose proof (postprocess_spec (paint [[6%Z]; [0%Z]]) 2
                (paint_length [[6%Z]; [0%Z]])) as Hp.
  set (out := mk_ndarray [2; 256; 256; 3]
                (map (clip_scalar 0 1) (data (paint [[6%Z]; [0%Z]])))) in Hp.
  assert (Hlo : length (data out) = 2 * size_of [256; 256; 3]).
  { unfold out. cbn [data].
    rewrite length_map, size_of_image. exact (paint_length [[6%Z]; [0%Z]]). }
  destruct (@rows_spec out 2 [256; 256; 3] eq_refl Hlo) as (imgs & Hr & _).
  exists out, imgs. split; [exact Hp|]. split; [exact Hr|].
  exact (proj1 (proj2 (image_bytes_of_decoded _ out imgs Hp Hr))).
Defined.

(** ** The loop, whatever the models return *)

Lemma generate_loop_inv (E : Externals) tok k p (n : nat) (st st' : State E) :
  generate_loop E n tok k p st = Some st' ->
  exists its,
    length its = n /\
    log st' = log st ++ its /\
    images st' = images st ++ concat (map it_images its) /\
    Forall (fun it =>
              Forall (fun im => Forall (fun b => (0 <= b <= 255)%Z) (im_bytes im))
                     (it_images it)) its.
Proof.
  revert st. induction n as [|n IH]; intros st H.
  - injection H as <-. exists []. cbn. rewrite !app_nil_r.
    repeat split. constructor.
  - cbn [generate_loop] in H. bind_inv H.
    destruct (generate_step_inv E tok k p st x Hx)
      as (subkey & seqs & dec & dimgs & imgs & _ & _ & _ & Hp & Hr & Hl & Hi).
    destruct (IH x H) as (its & Hn & Hl' & Hi' & HF).
    eexists (_ :: its). split; [cbn [length]; now rewrite Hn|].
    split; [rewrite Hl', Hl, <- app_assoc; reflexivity|].
    split; [rewrite Hi', Hi, <- app_assoc; reflexivity|].
    constructor; [|exact HF]. cbn [it_images]. apply Forall_map.
    exact (bytes_in_range dec imgs (decoded_rows_data dec dimgs imgs Hp Hr)).
Qed.

Lemma generate_loop_add (E : Externals) tok k p (n m : nat) (st : State E) :
  generate_loop E (n + m) tok k p st =
    (st' <- generate_loop E n tok k p st ;; generate_loop E m tok k p st').
Proof.
  revert st. induction n as [|n IH]; intros st; [reflexivity|].
  cbn [Nat.add generate_loop].
  destruct (generate_step E tok k p st) as [st1|]; [apply IH | reflexivity].
Qed.

(** X5: raising the prediction count extends a run.  If the run with the
    larger count completes, so does the run with the smaller count from the
    same seed, prompt and sampling controls, and the larger run's iterations
    and images are those of the smaller run, in the same order, followed by
    the additional ones. *)
Theorem larger_count_extends_run (E : Externals) (seed : Z) (prompt : string)
    (N1 N2 : nat) (k : option Z) (p : option Q) (st2 : State E) :
  N1 <= N2 ->
  generation E seed prompt N2 k p = Some st2 ->
  exists st1 its,
    generation E seed prompt N1 k p = Some st1 /\
    length its = N2 / device_count E - N1 / device_count E /\
    log st2 = log st1 ++ its /\
    images st2 = images st1 ++ concat (map it_images its).
Proof.
  intros Hle. unfold generation. intros H. bind_inv H.
  pose proof (Nat.Div0.div_le_mono N1 N2 (device_count E) Hle) as Hd.
  replace (N2 / device_count E)
    with (N1 / device_count E + (N2 / device_count E - N1 / device_count E))
    in H by lia.
  rewrite generate_loop_add in H. bind_inv H.
  destruct (generate_loop_inv E x k p _ _ st2 H) as (its & Hn & Hl & Hi & _).
  exists x0, its. repeat split; assumption.
Qed.

Lemma larger_count_extends_run_witness :
  exists (st1 st2 : State (externals 4)) (its : list (Iteration (externals 4))),
    generation (externals 4) 42 "a red T-shirt" 4 None None = Some st1 /\
    generation (externals 4) 42 "a red T-shirt" 8 None None = Some st2 /\
    length its = 1 /\
    images st2 = images st1 ++ concat (map it_images its).
Proof.
  assert (HC : Contract (externals 4)) by (apply externals_contract; lia).
  destruct (generation_spec (externals 4) HC 42 "a red T-shirt" 8 None None)
    as (st2 & Hg2 & _).
  assert (H48 : 4 <= 8) by lia.
  destruct (larger_count_extends_run (externals 4) 42 "a red T-shirt" 4 8
              None None st2 H48 Hg2) as (st1 & its & Hg1 & Hn & _ & Hi).
  exists st1, st2, its. split; [exact Hg1|]. split; [exact Hg2|].
  split; [exact Hn | exact Hi].
Defined.

(** ** The ranked display *)

Lemma combine_as_map {A B : Type} (l1 : list A) (l2 : list B) (d1 : A) (d2 : B) :
  length l1 = length l2 ->
  combine l1 l2 = map (fun i => (nth i l1 d1, nth i l2 d2)) (seq 0 (length l1)).
Proof.
  revert l2. induction l1 as [|a l1 IH]; intros [|b l2] Hl;
    try discriminate Hl; [reflexivity|].
  cbn [combine length seq map nth]. f_equal.
  rewrite <- seq_shift, map_map. cbn [nth]. apply IH.
  cbn [length] in Hl. lia.
Qed.

Lemma map_snd_combine_same {A B : Type} (l1 : list A) (l2 : list B) :
  length l1 = length l2 -> map snd (combine l1 l2) = l2.
Proof.
  revert l2. induction l1 as [|a l1 IH]; intros [|b l2] Hl;
    try discriminate Hl; [reflexivity|].
  cbn [combine map snd]. f_equal. apply IH. cbn [length] in Hl. lia.
Qed.

Lemma shown_as_map (imgs : list Image) (logits : list Q) (order : list nat)
    (shown : list (Image * Q)) (d : Image) :
  Forall2 (fun idx pr => nth_error imgs idx = Some (fst pr) /\
                         nth_error logits idx = Some (snd pr)) order shown ->
  shown = map (fun i => (nth i imgs d, nth i logits 0%Q)) order.
Proof.
  induction 1 as [|idx [im sc] order shown [Hi Hs] _ IH]; [reflexivity|].
  cbn [map fst snd] in *. rewrite <- IH. f_equal.
  now rewrite (nth_error_nth _ _ d Hi), (nth_error_nth _ _ 0%Q Hs).
Qed.

(** The display loop on as many images as scores. *)
Lemma display_spec (E : Externals) (imgs : list Image) (logits : list Q) :
  argsort_contract (argsort E) ->
  length imgs = length logits ->
  exists shown,
    present imgs logits (ranked E logits) = Some shown /\
    Permutation shown (combine imgs logits) /\
    StronglySorted (fun a b => (b <= a)%Q) (map snd shown).
Proof.
  intros HA Hl. destruct (ranked_spec E logits HA) as [HP HS].
  destruct (present_spec imgs logits (ranked E logits)) as (shown & Hs & HF2).
  { intros idx Hin. apply (Permutation_in _ HP), in_seq in Hin. lia. }
  exists shown. split; [exact Hs|].
  destruct (shown_scores _ _ _ _ HF2) as [_ Hms]. split.
  - destruct imgs as [|d imgs'].
    + destruct logits; [|discriminate Hl]. cbn in HP.
      apply Permutation_sym, Permutation_nil in HP. rewrite HP in HF2.
      inversion HF2. constructor.
    + rewrite (shown_as_map _ _ _ _ d HF2).
      rewrite (combine_as_map (d :: imgs') logits d 0%Q Hl), Hl.
      now apply Permutation_map.
  - rewrite Hms. now apply StronglySorted_map.
Qed.

(** X6: with as many images as scores, the display loop shows every image
    exactly once, each together with its own score: what is shown is a
    rearrangement of the list of (image, score) pairs. *)
Theorem display_shows_each_image_once (E : Externals) (imgs : list Image)
    (logits : list Q) :
  argsort_contract (argsort E) ->
  length imgs = length logits ->
  exists shown,
    present imgs logits (ranked E logits) = Some shown /\
    Permutation shown (combine imgs logits).
Proof.
  intros HA Hl. destruct (display_spec E imgs logits HA Hl) as (shown & Hs & HP & _).
  now exists shown.
Qed.

Lemma display_shows_each_image_once_witness :
  exists shown,
    present [mk_image [1] [7%Z]; mk_image [1] [8%Z]; mk_image [1] [9%Z]]
            [71 # 100; 95 # 100; 33 # 100]
            (ranked (externals 1) [71 # 100; 95 # 100; 33 # 100]) = Some shown /\
    Permutation shown
      (combine [mk_image [1] [7%Z]; mk_image [1] [8%Z]; mk_image [1] [9%Z]]
               [71 # 100; 95 # 100; 33 # 100]).
Proof.
  exact (display_shows_each_image_once (externals 1)
           [mk_image [1] [7%Z]; mk_image [1] [8%Z]; mk_image [1] [9%Z]]
           [71 # 100; 95 # 100; 33 # 100] insertion_argsort_contract eq_refl).
Defined.

(** X7: the image shown first has the highest score: no score of the batch
    exceeds the score displayed first. *)
Theorem best_score_shown_first (E : Externals) (imgs : list Image)
    (logits : list Q) (best : Image * Q) (rest : list (Image * Q)) :
  argsort_contract (argsort E) ->
  length imgs = length logits ->
  present imgs logits (ranked E logits) = Some (best :: rest) ->
  forall s, In s logits -> (s <= snd best)%Q.
Proof.
  intros HA Hl Hshown s Hin.
  destruct (display_spec E imgs logits HA Hl) as (shown & Hs & HP & HS).
  rewrite Hshown in Hs. injection Hs as <-.
  rewrite <- (map_snd_combine_same imgs logits Hl) in Hin.
  apply (Permutation_in _ (Permutation_sym (Permutation_map snd HP))) in Hin.
  cbn [map] in Hin, HS. inversion HS as [|? ? _ HF]; subst.
  destruct Hin as [<-|Hin]; [apply Qle_refl|].
  rewrite Forall_forall in HF. now apply HF.
Qed.

Lemma best_score_shown_first_witness :
  exists best rest,
    present [mk_image [1] [7%Z]; mk_image [1] [8%Z]; mk_image [1] [9%Z]]
            [71 # 100; 95 # 100; 33 # 100]
            (ranked (externals 1) [71 # 100; 95 # 100; 33 # 100])
      = Some (best :: rest) /\
    forall s, In s [71 # 100; 95 # 100; 33 # 100] -> (s <= snd best)%Q.
Proof.
  exists (mk_image [1] [8%Z], 95 # 100),
         [(mk_image [1] [7%Z], 71 # 100); (mk_image [1] [9%Z], 33 # 100)].
  assert (Hp : present [mk_image [1] [7%Z]; mk_image [1] [8%Z]; mk_image [1] [9%Z]]
                       [71 # 100; 95 # 100; 33 # 100]
                       (ranked (externals 1) [71 # 100; 95 # 100; 33 # 100])
               = Some [(mk_image [1] [8%Z], 95 # 100);
                       (mk_image [1] [7%Z], 71 # 100);
                       (mk_image [1] [9%Z], 33 # 100)]) by reflexivity.
  split; [exact Hp|].
  exact (best_score_shown_first (externals 1)
           [mk_image [1] [7%Z]; mk_image [1] [8%Z]; mk_image [1] [9%Z]]
           [71 # 100; 95 # 100; 33 # 100] _ _
           insertion_argsort_contract eq_refl Hp).
Defined.

Lemma present_missing (imgs : list Image) (logits : list Q) (order : list nat)
    (idx : nat) :
  In idx order -> nth_error imgs idx = None ->
  present imgs logits order = None.
Proof.
  intros Hin Hnone. induction order as [|a order IH]; [contradiction|].
  cbn [present]. destruct Hin as [->|Hin].
  - now rewrite Hnone.
  - rewrite (IH Hin). destruct (nth_error imgs a); [|reflexivity].
    destruct (nth_error logits a); reflexivity.
Qed.

(** X8: with fewer images than scores the display loop raises: the order
    holds an index that [images[idx]] cannot serve, and nothing is returned. *)
Theorem display_raises_on_missing_image (E : Externals) (imgs : list Image)
    (logits : list Q) :
  argsort_contract (argsort E) ->
  length imgs < length logits ->
  present imgs logits (ranked E logits) = None.
Proof.
  intros HA Hlt. destruct (ranked_spec E logits HA) as [HP _].
  apply (present_missing imgs logits _ (length imgs)).
  - apply (Permutation_in _ (Permutation_sym HP)), in_seq. lia.
  - now apply nth_error_None.
Qed.

Lemma display_raises_on_missing_image_witness :
  present [mk_image [1] [7%Z]] [71 # 100; 95 # 100; 33 # 100]
          (ranked (externals 1) [71 # 100; 95 # 100; 33 # 100]) = None.
Proof.
  apply (display_raises_on_missing_image (externals 1) [mk_image [1] [7%Z]]
           [71 # 100; 95 # 100; 33 # 100] insertion_argsort_contract).
  cbn. lia.
Defined.

(** ** Scoring a batch the devices cannot share *)

(** X9: the scoring stage raises on every image list whose length the
    device count does not divide: resharding the pixel values fails, and no
    score is returned. *)
Theorem scoring_raises_on_partial_batch (E : Externals) (prompt : string)
    (imgs : list Image) :
  Contract E ->
  length imgs mod device_count E <> 0 ->
  scoring E prompt imgs = None.
Proof.
  intros HC Hm. unfold scoring, processor.
  destruct (clip_image_features E imgs) as [px|] eqn:Hf; [|reflexivity].
  cbn [ci_input_ids ci_attention_mask ci_pixel_values].
  destruct (shard (device_count E) (input_ids _)); [|reflexivity].
  destruct (shard (device_count E) (attention_mask _)); [|reflexivity].
  rewrite (c_features_inv HC imgs px Hf).
  rewrite shard_not_multiple by (now rewrite length_map). reflexivity.
Qed.

(** Three images on four devices. *)
Lemma scoring_raises_on_partial_batch_witness :
  Contract (externals 4) /\
  scoring (externals 4) "a red T-shirt"
          [mk_image [1] [7%Z]; mk_image [1] [8%Z]; mk_image [1] [9%Z]] = None.
Proof.
  assert (HC : Contract (externals 4)) by (apply externals_contract; lia).
  split; [exact HC|].
  apply (scoring_raises_on_partial_batch (externals 4) "a red T-shirt"
           [mk_image [1] [7%Z]; mk_image [1] [8%Z]; mk_image [1] [9%Z]] HC).
  discriminate.
Defined.

(** ** Which key made which image *)

Lemma generate_loop_log (E : Externals) tok k p (P : Iteration E -> Prop) :
  (forall st st', generate_step E tok k p st = Some st' ->
                  exists it, log st' = log st ++ [it] /\ P it) ->
  forall n st st', generate_loop E n tok k p st = Some st' ->
                   exists its, log st' = log st ++ its /\ Forall P its.
Proof.
  intros Hstep. induction n as [|n IH]; intros st st' H.
  - injection H as <-. exists []. now rewrite app_nil_r.
  - cbn [generate_loop] in H. bind_inv H.
    destruct (Hstep st x Hx) as (it & Hl & HP).
    destruct (IH x st' H) as (its & Hl' & HF).
    exists (it :: its). split; [|now constructor].
    rewrite Hl', Hl, <- app_assoc. reflexivity.
Qed.

Lemma nth_error_concat_uniform {A : Type} (W : nat) (xss : list (list A))
    (j : nat) (x : A) :
  0 < W -> Forall (fun xs => length xs = W) xss ->
  nth_error (concat xss) j = Some x ->
  exists xs, nth_error xss (j / W) = Some xs /\ nth_error xs (j mod W) = Some x.
Proof.
  intros HW HF. revert j. induction HF as [|xs xss Hl _ IH]; intros j Hj.
  - destruct j; discriminate Hj.
  - cbn [concat] in Hj. destruct (Nat.lt_ge_cases j W) as [Hlt|Hge].
    + rewrite nth_error_app1 in Hj by lia.
      rewrite Nat.div_small, Nat.mod_small by assumption.
      exists xs. now split.
    + rewrite nth_error_app2 in Hj by lia. rewrite Hl in Hj.
      destruct (IH _ Hj) as (ys & Hy & Hx). exists ys.
      replace j with (j - W + 1 * W) by lia.
      rewrite Nat.div_add, Nat.Div0.mod_add by lia.
      rewrite Nat.add_1_r. now split.
Qed.

Section PerWorker.
Variable E : Externals.
Hypothesis HC : Contract E.

(** cells 20 and 23 together: every device receives the same single row. *)
Lemma shard_encoding_prompt (prompt : string) :
  shard_encoding (device_count E) (tokenized_prompt E prompt) =
    Some (repeat [fst (encode_row (tokenizer E) 128 (processed_prompt E prompt))]
                 (device_count E),
          repeat [snd (encode_row (tokenizer E) 128 (processed_prompt E prompt))]
                 (device_count E)).
Proof.
  pose proof (c_devices HC) as HW.
  unfold shard_encoding, tokenized_prompt, repeated_prompts.
  rewrite tokenizer_call_repeat. cbn [input_ids attention_mask].
  rewrite !(shard_multiple (device_count E) 1)
    by (try rewrite repeat_length; lia).
  now rewrite !chunks_repeat_singletons.
Qed.

Lemma p_generate_repeat (ids mask : list Z) (keys : list (Key E)) k p :
  length keys = device_count E ->
  p_generate E (repeat [ids] (device_count E), repeat [mask] (device_count E))
             keys k p =
    Some (map (fun key => model_generate E (mk_encoding [ids] [mask]) key k p)
              keys).
Proof.
  intros Hk. unfold p_generate, zip_mapped, pmap. cbn [fst snd].
  rewrite !repeat_length, Nat.eqb_refl.
  rewrite (combine_repeat_l _ (repeat _ _) _ (repeat_length _ _)), map_repeat.
  rewrite repeat_length, Hk, Nat.eqb_refl.
  rewrite (combine_repeat_l _ keys _ Hk).
  rewrite length_map, Hk, Nat.leb_refl, map_map. reflexivity.
Qed.

Lemma p_decode_value (idx : list (list (list Z))) :
  length idx = device_count E -> Forall (batch_of 1 256) idx ->
  p_decode E idx =
    Some (mk_ndarray [length idx; 1; 256; 256; 3]
                     (concat (map (fun d => data (vqgan_decode_code E d)) idx))) /\
  Forall (fun d => length (data (vqgan_decode_code E d)) = 256 * 256 * 3) idx.
Proof.
  intros Hl HF. pose proof (c_devices HC) as HW.
  assert (Hlen : Forall (fun d => length (data (vqgan_decode_code E d))
                                  = 256 * 256 * 3) idx).
  { eapply Forall_impl; [|exact HF]. intros d [Hd H256]. cbv beta.
    pose proof (c_decode_wf HC d) as Hw. unfold wf in Hw.
    rewrite Hw, (c_decode_shape HC d H256), Hd. unfold size_of, fold_right. lia. }
  split; [|exact Hlen].
  unfold p_decode, pmap. rewrite Hl, Nat.leb_refl.
  rewrite (stack_spec (map (vqgan_decode_code E) idx) [1; 256; 256; 3]).
  - rewrite length_map, Hl, map_map. reflexivity.
  - destruct idx; [simpl in Hl; lia | discriminate].
  - apply Forall_map. eapply Forall_impl; [|exact HF].
    intros d [Hd H256]. cbv beta. now rewrite (c_decode_shape HC d H256), Hd.
Qed.

(** The loop body on the sharded prompt: each worker's sequence comes from
    its own key, each worker's image from its own sequence. *)
Lemma generate_step_per_worker (ids mask : list Z) k p (st st' : State E) :
  generate_step E (repeat [ids] (device_count E), repeat [mask] (device_count E))
                k p st = Some st' ->
  exists it,
    log st' = log st ++ [it] /\
    it_sequences it =
      map (fun key => model_generate E (mk_encoding [ids] [mask]) key k p)
          (it_worker_keys it) /\
    it_images it = map (render E) (it_sequences it).
Proof.
  intros H.
  destruct (generate_step_inv E _ k p st st' H)
    as (subkey & seqs & dec & dimgs & imgs & _ & Hg & Hd & Hp & Hr & Hl & _).
  assert (Hk : length (shard_prng_key E subkey) = device_count E)
    by apply (c_split HC).
  rewrite (p_generate_repeat ids mask _ k p Hk) in Hg. injection Hg as Hg.
  assert (Hseqs : length seqs = device_count E /\ Forall (batch_of 1 257) seqs).
  { rewrite <- Hg. split; [now rewrite length_map|].
    apply Forall_map, Forall_forall. intros key _.
    exact (c_generate HC (mk_encoding [ids] [mask]) key k p). }
  destruct Hseqs as [Hls HFs].
  destruct (remove_bos_shape seqs (device_count E) Hls HFs) as [Hlr HFr].
  destruct (p_decode_value (remove_bos seqs) Hlr HFr) as [Hdv Hlen].
  rewrite Hdv in Hd.
  apply (f_equal (fun o => match o with Some a => a | None => dec end)) in Hd.
  cbv beta iota in Hd. subst dec.
  destruct (postprocess_inv _ dimgs Hp) as [Hdi Hsz]. cbn [data] in Hdi, Hsz.
  set (blocks := map (fun d => data (vqgan_decode_code E d)) (remove_bos seqs))
    in *.
  assert (Hbl : Forall (fun b => length b = 256 * 256 * 3) blocks)
    by (unfold blocks; now apply Forall_map).
  assert (Hcl : Forall (fun b => length b = 256 * 256 * 3)
                       (map (map (clip_scalar 0 1)) blocks)).
  { apply Forall_map. eapply Forall_impl; [|exact Hbl].
    intros b Hb. cbv beta. now rewrite length_map. }
  assert (Hn : length (concat blocks) / (256 * 256 * 3)
               = length (map (map (clip_scalar 0 1)) blocks)).
  { rewrite (concat_length_uniform _ _ Hbl), length_map.
    apply Nat.div_mul. lia. }
  rewrite Hn, concat_map in Hdi. subst dimgs.
  unfold rows in Hr. cbn [shape data] in Hr. rewrite size_of_image in Hr.
  rewrite (chunks_of_concat _ _ Hcl) in Hr.
  apply (f_equal (fun o => match o with Some a => a | None => imgs end)) in Hr.
  cbv beta iota in Hr. subst imgs.
  eexists. split; [exact Hl|]. cbn [it_sequences it_worker_keys it_images].
  split; [now rewrite Hg|].
  unfold blocks, remove_bos, render. now rewrite !map_map.
Qed.

Lemma generation_per_worker (seed : Z) (prompt : string) (N : nat) k p
    (st : State E) :
  generation E seed prompt N k p = Some st ->
  Forall (fun it =>
            it_sequences it =
              map (fun key =>
                     model_generate E
                       (mk_encoding
                          [fst (encode_row (tokenizer E) 128 (processed_prompt E prompt))]
                          [snd (encode_row (tokenizer E) 128 (processed_prompt E prompt))])
                       key k p)
                  (it_worker_keys it) /\
            it_images it = map (render E) (it_sequences it))
         (log st).
Proof.
  unfold generation. rewrite shard_encoding_prompt. intros H.
  destruct (generate_loop_log E _ k p _
              (generate_step_per_worker _ _ k p) _ _ _ H) as (its & Hl & HF).
  cbn [log app] in Hl. now rewrite Hl.
Qed.
End PerWorker.

(** X10: in a completed run, within each iteration every worker's sequence
    is what the model generates from the one tokenized prompt row and that
    worker's own key, and every worker's image is the rendering (strip,
    decode, clip, 8-bit) of that worker's own sequence: stacking the
    per-device results, reshaping and iterating never mixes workers. *)
Theorem each_worker_renders_its_own_sequence (E : Externals) (seed : Z)
    (prompt : string) (N : nat) (k : option Z) (p : option Q) (st : State E) :
  Contract E ->
  generation E seed prompt N k p = Some st ->
  Forall (fun it =>
            it_sequences it =
              map (fun key =>
                     model_generate E
                       (mk_encoding
                          [fst (encode_row (tokenizer E) 128 (processed_prompt E prompt))]
                          [snd (encode_row (tokenizer E) 128 (processed_prompt E prompt))])
                       key k p)
                  (it_worker_keys it) /\
            it_images it = map (render E) (it_sequences it))
         (log st).
Proof.
  intros HC. unfold generation.
  rewrite (shard_encoding_prompt E HC prompt). intros H.
  destruct (generate_loop_log E _ k p _
              (generate_step_per_worker E HC _ _ k p) _ _ _ H)
    as (its & Hl & HF).
  cbn [log app] in Hl. rewrite Hl. exact HF.
Qed.

Lemma each_worker_renders_its_own_sequence_witness :
  Contract (externals 4) /\
  exists st,
    generation (externals 4) 42 "a red T-shirt" 8 None None = Some st /\
    Forall (fun it => it_images it = map (render (externals 4)) (it_sequences it))
           (log st).
Proof.
  assert (HC : Contract (externals 4)) by (apply externals_contract; lia).
  split; [exact HC|].
  destruct (generation_spec (externals 4) HC 42 "a red T-shirt" 8 None None)
    as (st & Hg & _).
  exists st. split; [exact Hg|].
  eapply Forall_impl;
    [|exact (each_worker_renders_its_own_sequence (externals 4) 42
               "a red T-shirt" 8 None None st HC Hg)].
  intros it Hit. exact (proj2 Hit).
Defined.

(** X11: image [j] of a completed run was made in iteration [j / W] by
    worker [j mod W]: it is the rendering of the sequence the model generates
    from the tokenized prompt and that worker's key of that iteration. *)
Theorem image_origin (E : Externals) (seed : Z) (prompt : string) (N : nat)
    (k : option Z) (p : option Q) (st : State E) (j : nat) (im : Image) :
  Contract E ->
  generation E seed prompt N k p = Some st ->
  nth_error (images st) j = Some im ->
  exists it key,
    nth_error (log st) (j / device_count E) = Some it /\
    nth_error (it_worker_keys it) (j mod device_count E) = Some key /\
    im = render E
           (model_generate E
              (mk_encoding
                 [fst (encode_row (tokenizer E) 128 (processed_prompt E prompt))]
                 [snd (encode_row (tokenizer E) 128 (processed_prompt E prompt))])
              key k p).
Proof.
  intros HC Hg Hj.
  pose proof (generation_per_worker E HC seed prompt N k p st Hg) as Hpw.
  destruct (generation_spec E HC seed prompt N k p)
    as (st0 & Hg0 & _ & Hok & Hi & _).
  rewrite Hg in Hg0. injection Hg0 as <-.
  rewrite Hi in Hj.
  assert (HFl : Forall (fun xs => length xs = device_count E)
                       (map it_images (log st))).
  { apply Forall_map. eapply Forall_impl; [|exact Hok]. intros it Hit. apply Hit. }
  destruct (nth_error_concat_uniform (device_count E) _ j im (c_devices HC)
              HFl Hj) as (xs & Hxs & Him).
  rewrite nth_error_map in Hxs.
  destruct (nth_error (log st) (j / device_count E)) as [it|] eqn:Hit;
    [|discriminate Hxs].
  cbn [option_map] in Hxs. assert (Hx : xs = it_images it) by congruence.
  subst xs. rewrite Forall_forall in Hpw.
  destruct (Hpw it (nth_error_In _ _ Hit)) as [Hseq Himg].
  rewrite Himg, Hseq, map_map, nth_error_map in Him.
  destruct (nth_error (it_worker_keys it) (j mod device_count E))
    as [key|] eqn:Hkey; [|discriminate Him].
  cbn [option_map] in Him. exists it, key.
  split; [reflexivity|]. split; [exact Hkey|]. congruence.
Qed.

Lemma image_origin_witness :
  Contract (externals 4) /\
  exists st im it key,
    generation (externals 4) 42 "a red T-shirt" 8 None None = Some st /\
    nth_error (images st) 6 = Some im /\
    nth_error (log st) 1 = Some it /\
    nth_error (it_worker_keys it) 2 = Some key.
Proof.
  assert (HC : Contract (externals 4)) by (apply externals_contract; lia).
  split; [exact HC|].
  destruct (generation_spec (externals 4) HC 42 "a red T-shirt" 8 None None)
    as (st & Hg & _ & _ & _ & Hlen & _).
  destruct (nth_error (images st) 6) as [im|] eqn:Him.
  - destruct (image_origin (externals 4) 42 "a red T-shirt" 8 None None st 6 im
                HC Hg Him) as (it & key & Hit & Hkey & _).
    exists st, im, it, key. split; [exact Hg|]. split; [exact Him|].
    split; [exact Hit | exact Hkey].
  - exfalso. apply nth_error_None in Him. rewrite Hlen in Him.
    cbn in Him. lia.
Defined.

(** X12: tokenizing the repeated prompt and sharding the result succeeds for
    every positive device count and hands every device the same single row
    of token ids and the same single mask row. *)
Theorem every_device_gets_the_same_row (E : Externals) (prompt : string) :
  0 < device_count E ->
  shard_encoding (device_count E) (tokenized_prompt E prompt) =
    Some (repeat [fst (encode_row (tokenizer E) 128 (processed_prompt E prompt))]
                 (device_count E),
          repeat [snd (encode_row (tokenizer E) 128 (processed_prompt E prompt))]
                 (device_count E)).
Proof.
  intros HW. unfold shard_encoding, tokenized_prompt, repeated_prompts.
  rewrite tokenizer_call_repeat. cbn [input_ids attention_mask].
  rewrite !(shard_multiple (device_count E) 1)
    by (try rewrite repeat_length; lia).
  now rewrite !chunks_repeat_singletons.
Qed.

Lemma every_device_gets_the_same_row_witness :
  0 < device_count (externals 4) /\
  shard_encoding 4 (tokenized_prompt (externals 4) "a red T-shirt") =
    Some (repeat [fst (encode_row (char_tokenizer 0 2 1) 128 "a red T-shirt")] 4,
          repeat [snd (encode_row (char_tokenizer 0 2 1) 128 "a red T-shirt")] 4).
Proof.
  assert (HW : 0 < device_count (externals 4)) by (cbn; lia).
  split; [exact HW|].
  exact (every_device_gets_the_same_row (externals 4) "a red T-shirt" HW).
Defined.

End Extras.

(** * Part IV: which text the scores are computed against *)

Module PromptFacts.
Import Distributor DistributorFacts NDArray NDArrayFacts Pipeline Example.
Import TokenizerFacts PipelineFacts ScoringFacts RankingFacts ExampleFacts.
Import RunFacts StageFacts Extras.

(** The contracts do not mention the text front end of the generation. *)
Lemma contract_with_text_frontend (E : Externals) (b : bool)
    (f : string -> string) (t : Tokenizer) :
  Contract E -> Contract (with_text_frontend E b f t).
Proof.
  intros [H1 H2 H3 H4 H5 H6 H7 H8]. constructor; assumption.
Qed.

Lemma processor_spec (E : Externals) (prompt : string) (imgs : list Image) :
  Contract E -> imgs <> [] ->
  processor E prompt imgs =
    Some (mk_clip_inputs
            (repeat (fst (encode_row (clip_tokenizer E) 77 prompt)) (device_count E))
            (repeat (snd (encode_row (clip_tokenizer E) 77 prompt)) (device_count E))
            (map (clip_preprocess E) imgs)).
Proof.
  intros HC Hne. unfold processor.
  rewrite (c_features HC imgs Hne), tokenizer_call_repeat. reflexivity.
Qed.

(** The scores of a whole run, and the text its generation read. *)
Lemma run_scores_spec (E : Externals) (seed : Z) (prompt : string) (N : nat)
    (k : option Z) (p : option Q) :
  Contract E -> 0 < N -> N mod device_count E = 0 ->
  exists out,
    run E seed prompt N k p = Some out /\
    out_logits out =
      map (fun im =>
             clip_similarity E (fst (encode_row (clip_tokenizer E) 77 prompt))
                               (snd (encode_row (clip_tokenizer E) 77 prompt))
                               (clip_preprocess E im))
          (images (out_state out)) /\
    length (out_logits out) = N /\
    Forall (fun it =>
              it_sequences it =
                map (fun key =>
                       model_generate E
                         (mk_encoding
                            [fst (encode_row (tokenizer E) 128 (processed_prompt E prompt))]
                            [snd (encode_row (tokenizer E) 128 (processed_prompt E prompt))])
                         key k p)
                    (it_worker_keys it))
           (log (out_state out)).
Proof.
  intros HC HN Hdiv.
  destruct (run_spec E seed prompt N k p HC HN Hdiv)
    as (out & Hrun & _ & _ & _ & Hlen & _).
  exists out. split; [exact Hrun|].
  pose proof Hrun as H. unfold run in H.
  bind_inv H. bind_inv H. bind_inv H.
  assert (Hout : out = mk_output x x0 x1) by congruence. subst out.
  cbn [out_logits out_state] in *.
  split; [exact (scoring_inv E prompt (images x) x0
                   (c_features_inv HC (images x)) Hx0)|].
  split; [exact Hlen|].
  eapply Forall_impl; [|exact (generation_per_worker E HC seed prompt N k p x Hx)].
  intros it Hit. exact (proj1 Hit).
Qed.

(** C10: a run completes with scores that are CLIP's logits of the images
    against the raw prompt tokenized by CLIP's tokenizer at length 77, while
    its generation read the processed prompt tokenized by the dalle-mini
    tokenizer at length 128; the same holds of the scoring stage on any
    non-empty batch the device count divides.  The text row has 77
    positions; when the prompt's CLIP tokenization with its two special
    tokens exceeds 77, the row is the start token, the first 75 tokens and
    the end token, shorter than the tokenization, so that prompts sharing
    their first 75 tokens receive the same scores. *)
Theorem scoring_prompt_truncated_at_77 (E : Externals) (seed : Z)
    (prompt : string) (N : nat) (k : option Z) (p : option Q) :
  Contract E -> 0 < N -> N mod device_count E = 0 ->
  let ct := clip_tokenizer E in
  let ids := fst (encode_row ct 77 prompt) in
  let mask := snd (encode_row ct 77 prompt) in
  let score := fun im => clip_similarity E ids mask (clip_preprocess E im) in
  (exists out,
     run E seed prompt N k p = Some out /\
     out_logits out = map score (images (out_state out)) /\
     length (out_logits out) = N /\
     Forall (fun it =>
               it_sequences it =
                 map (fun key =>
                        model_generate E
                          (mk_encoding
                             [fst (encode_row (tokenizer E) 128 (processed_prompt E prompt))]
                             [snd (encode_row (tokenizer E) 128 (processed_prompt E prompt))])
                          key k p)
                     (it_worker_keys it))
            (log (out_state out))) /\
  (forall imgs m, 0 < m -> length imgs = device_count E * m ->
     processor E prompt imgs =
       Some (mk_clip_inputs (repeat ids (device_count E))
                            (repeat mask (device_count E))
                            (map (clip_preprocess E) imgs)) /\
     scoring E prompt imgs = Some (map score imgs)) /\
  length ids = 77 /\ length mask = 77 /\
  (77 < length (encode ct prompt) + 2 ->
   ids = bos_token_id ct :: firstn 75 (encode ct prompt) ++ [eos_token_id ct] /\
   mask = repeat 1%Z 77 /\
   length ids < length (encode ct prompt) + 2 /\
   forall prompt' imgs,
     77 < length (encode ct prompt') + 2 ->
     firstn 75 (encode ct prompt') = firstn 75 (encode ct prompt) ->
     scoring E prompt' imgs = scoring E prompt imgs).
Proof.
  intros HC HN Hdiv. cbv zeta. assert (H77 : 2 <= 77) by lia.
  split; [exact (run_scores_spec E seed prompt N k p HC HN Hdiv)|].
  split.
  { intros imgs m Hm Hl.
    assert (Hne : imgs <> []).
    { intros ->. pose proof (c_devices HC). cbn [length] in Hl. nia. }
    split; [exact (processor_spec E prompt imgs HC Hne)|].
    exact (scoring_spec E prompt imgs m (c_devices HC) Hl (c_features HC imgs Hne)). }
  destruct (encode_row_length (clip_tokenizer E) 77 prompt H77) as [Hi Hm].
  split; [exact Hi|]. split; [exact Hm|].
  intros Hlong.
  pose proof (encode_row_long (clip_tokenizer E) 77 prompt H77) as Hrow.
  change (77 - 2) with 75 in Hrow. rewrite Hrow by lia. cbn [fst snd].
  split; [reflexivity|]. split; [reflexivity|]. split.
  - cbn [length]. rewrite length_app, length_firstn. cbn [length]. lia.
  - intros prompt' imgs Hlong' Hpre. apply scoring_text_only.
    pose proof (encode_row_long (clip_tokenizer E) 77 prompt' H77) as Hrow'.
    change (77 - 2) with 75 in Hrow'.
    rewrite Hrow, Hrow' by lia. now rewrite Hpre.
Qed.

(** A run on four devices whose generation normalizes the prompt to lower
    case: the scores are still computed against the first 75 characters of
    the prompt as typed. *)
Lemma scoring_prompt_truncated_at_77_witness :
  Contract (with_text_frontend (externals 4) true lowercase (char_tokenizer 0 2 1)) /\
  processed_prompt
    (with_text_frontend (externals 4) true lowercase (char_tokenizer 0 2 1))
    "a photograph of a very large red T-shirt hanging on a line in the sun, seen from A" <> "a photograph of a very large red T-shirt hanging on a line in the sun, seen from A"%string /\
  77 < length (encode (char_tokenizer 49406 49407 49407) "a photograph of a very large red T-shirt hanging on a line in the sun, seen from A") + 2 /\
  exists out,
    run (with_text_frontend (externals 4) true lowercase (char_tokenizer 0 2 1))
        42 "a photograph of a very large red T-shirt hanging on a line in the sun, seen from A" 8 None None = Some out /\
    out_logits out =
      map (fun im =>
             similarity
               (49406%Z :: firstn 75 (encode (char_tokenizer 49406 49407 49407) "a photograph of a very large red T-shirt hanging on a line in the sun, seen from A")
                  ++ [49407%Z])
               (repeat 1%Z 77) (first_pixel im))
          (images (out_state out)) /\
    length (out_logits out) = 8.
Proof.
  assert (HC : Contract (with_text_frontend (externals 4) true lowercase
                                            (char_tokenizer 0 2 1))).
  { apply contract_with_text_frontend, externals_contract. lia. }
  assert (Hnorm : processed_prompt
                    (with_text_frontend (externals 4) true lowercase
                                        (char_tokenizer 0 2 1))
                    "a photograph of a very large red T-shirt hanging on a line in the sun, seen from A" <> "a photograph of a very large red T-shirt hanging on a line in the sun, seen from A"%string).
  { vm_compute. discriminate. }
  assert (Hlong : 77 < length (encode (char_tokenizer 49406 49407 49407) "a photograph of a very large red T-shirt hanging on a line in the sun, seen from A") + 2).
  { vm_compute. lia. }
  assert (H8 : 0 < 8) by lia.
  split; [exact HC|]. split; [exact Hnorm|]. split; [exact Hlong|].
  destruct (scoring_prompt_truncated_at_77
              (with_text_frontend (externals 4) true lowercase (char_tokenizer 0 2 1))
              42 "a photograph of a very large red T-shirt hanging on a line in the sun, seen from A" 8 None None HC H8 eq_refl)
    as ((out & Hrun & Hlog & Hlen & _) & _ & _ & _ & Htrunc).
  destruct (Htrunc Hlong) as (Hids & Hmask & _).
  exists out. split; [exact Hrun|]. split; [|exact Hlen].
  rewrite Hlog. apply map_ext. intros im.
  cbv zeta in Hids, Hmask. rewrite Hids, Hmask. reflexivity.
Defined.

End PromptFacts.
